(** * Route-cache generation (scripts/generate_all_routes.py)

    A shallow embedding of the script that fills the pairwise route cache
    through the Google Distance Matrix API, and the properties of its batch
    partition, of its aggregation of matrix responses and of its exit
    behaviour.

    Conventions of the embedding:
    - Python [int] is [Z] (indices and lengths, which are never negative
      here, are [nat]); Python [float] is an IEEE 754 binary64 value of
      [SpecFloat.spec_float] with [prec = 53] and [emax = 1024];
    - a [str] is the [string] of the bytes of its UTF-8 encoding;
    - a JSON object read with [.get(k)] or [[k]] is a record whose fields are
      [option]s: [None] is an absent key, so that [[k]] can raise [KeyError];
      the records stand for JSON of the documented shape, and the two
      functions that read the response are embedded as well over any JSON
      value ([json]), where they agree with the records on that shape;
    - [dict] is [gmap]: [cache.update(routes)] is the left-biased union
      [routes ∪ cache];
    - code that only prints and raises runs in the writer monad [Printing];
      [main], which also talks to the network, sleeps and mutates its
      locals, runs in the state monad [Run];
    - the Distance Matrix service, the environment variable, the two data
      files and the presence of the [requests] library form the [Env] the
      script runs in. *)

From Stdlib Require Import ZArith Floats.SpecFloat.
From stdpp Require Import gmap strings list pretty.

(** ** Python numbers *)

Module PyFloat.

Definition float : Type := spec_float.

Definition prec : Z := 53.
Definition emax : Z := 1024.

(** An [int] as an (unnormalised) binary float with exponent 0; the
    operations of [SpecFloat] round it once, at the end. *)
Definition of_int (z : Z) : float :=
  match z with
  | Z0 => S754_zero false
  | Zpos p => S754_finite false p 0
  | Zneg p => S754_finite true p 0
  end.

(** [a / b] on two [int]s, [b] not zero: the quotient correctly rounded to
    the nearest double, ties to even; [None] stands for Python's
    [OverflowError: integer division result too large for a float]. *)
Definition int_truediv (a b : Z) : option float :=
  match SFdiv prec emax (of_int a) (of_int b) with
  | S754_infinity _ | S754_nan => None
  | q => Some q
  end.

(** The integer nearest to [p / q] ([q > 0]), ties to the even one. *)
Definition div_half_even (p q : Z) : Z :=
  let k := (p / q)%Z in
  match (2 * (p mod q) ?= q)%Z with
  | Lt => k
  | Gt => (k + 1)%Z
  | Eq => if Z.even k then k else (k + 1)%Z
  end.

(** [round(x, 1)]: CPython prints the exact binary value of [x] with one
    digit after the point (round-half-even on that exact value) and reads
    the decimal back as the nearest double.  [tenths] is the printed
    decimal times ten. *)
Definition tenths (m : positive) (e : Z) : Z :=
  if (0 <=? e)%Z then (10 * Zpos m * 2 ^ e)%Z
  else div_half_even (10 * Zpos m) (2 ^ (- e)).

Definition round1 (x : float) : float :=
  match x with
  | S754_finite s m e =>
      match tenths m e with
      | Zpos k => SFdiv prec emax (S754_finite s k 0) (of_int 10)
      | _ => S754_zero s
      end
  | _ => x
  end.

End PyFloat.

(** ** Python lists and strings *)

Fixpoint enumerate_from {A : Type} (k : nat) (l : list A) : list (nat * A) :=
  match l with
  | [] => []
  | x :: l' => (k, x) :: enumerate_from (S k) l'
  end.

(** [enumerate(l)] *)
Definition enumerate {A : Type} (l : list A) : list (nat * A) :=
  enumerate_from 0 l.

(** [range(start, stop, step)] for [step >= 1]: CPython computes the length
    [(stop - start - 1) // step + 1] (0 when [stop <= start]) and the item
    of rank [k] as [start + k * step]. *)
Definition py_range (start stop step : nat) : list nat :=
  let len := if decide (start < stop) then S ((stop - start - 1) / step) else 0 in
  (λ k, start + k * step) <$> seq 0 len.

(** [l[a:b]] for indices that are not negative. *)
Definition slice {A : Type} (l : list A) (a b : nat) : list A :=
  take (b - a) (drop a l).

(** [sep.join(parts)] *)
Fixpoint join (sep : string) (parts : list string) : string :=
  match parts with
  | [] => EmptyString
  | [p] => p
  | p :: rest => p +:+ sep +:+ join sep rest
  end.

(** [s * n] *)
Fixpoint str_times (s : string) (n : nat) : string :=
  match n with
  | O => EmptyString
  | S n' => s +:+ str_times s n'
  end.

(** A [str] is kept as the bytes of its UTF-8 encoding, so that one
    character is one to four bytes: a byte [10xxxxxx] continues the
    character that the bytes before it began. *)
Definition is_continuation (a : Ascii.ascii) : bool :=
  let n := Ascii.nat_of_ascii a in (128 <=? n) && (n <? 192).

(** The characters of a [str], each with its bytes: what [for c in s]
    goes through. *)
Fixpoint chars (s : string) : list string :=
  match s with
  | EmptyString => []
  | String a rest =>
      match chars rest with
      | String b c :: cs =>
          if is_continuation b then String a (String b c) :: cs
          else String a EmptyString :: String b c :: cs
      | cs => String a EmptyString :: cs
      end
  end.

(** [s[:n]]: the first [n] characters. *)
Definition str_prefix (n : nat) (s : string) : string :=
  foldr String.append EmptyString (take n (chars s)).

(** How an f-string renders the result of [d.get(k)]. *)
Definition fmt_get (o : option string) : string := default "None" o.

Definition newline : string := String (Ascii.ascii_of_nat 10) EmptyString.

(** ** Data *)

(** An entry of [locations.json].  The coordinates are only ever formatted
    into the query, so they are kept as the text the f-string gives. *)
Record Location := {
  loc_id : string;
  loc_nombre : string;
  loc_latitud : string;
  loc_longitud : string;
}.

(** [{"text": ..., "value": ...}] *)
Record Measure := {
  value : option Z;
}.

(** One cell of the response grid. *)
Record Element := {
  el_status : option string;
  el_distance : option Measure;
  el_duration : option Measure;
}.

Record Row := {
  row_elements : option (list Element);
}.

(** The JSON body of a Distance Matrix response. *)
Record MatrixData := {
  data_status : option string;
  data_error_message : option string;
  data_rows : option (list Row);
}.

(** A value of the routes cache. *)
Record RouteInfo := {
  distance_km : PyFloat.float;
  duration_seconds : Z;
}.

(** The [params] of the GET request. *)
Record Params := {
  p_origins : string;
  p_destinations : string;
  p_mode : string;
  p_key : string;
}.

(** What [requests.get] does: it raises (connection error, timeout), or it
    returns a response with a status code and a body that parses
    as JSON or does not. *)
Inductive HttpOutcome :=
  | ConnectionFailed
  | Response (status_code : Z) (body : option MatrixData).

(** [response.ok] *)
Definition response_ok (status_code : Z) : bool :=
  negb ((400 <=? status_code)%Z && (status_code <? 600)%Z).

(** The exceptions of the script.  [RequestException] stands for what
    [requests.get] raises, [JSONDecodeError] for what [response.json()]
    raises, [OSError] for what [open] raises. *)
Inductive exn :=
  | IndexError
  | KeyError (key : string)
  | OverflowError
  | AttributeError
  | TypeError
  | RequestException
  | JSONDecodeError
  | OSError
  | SystemExit (code : Z).

Inductive res (A : Type) :=
  | Return (a : A)
  | Raised (e : exn).
Arguments Return {A} a.
Arguments Raised {A} e.

(** The world the script runs in.  [service k p] is the outcome of the GET
    request with parameters [p] when [k] requests were made before it. *)
Record Env := {
  requests_installed : bool;
  environ_GOOGLE_API_KEY : option string;
  locations_json : res (list Location);
  routes_cache_writable : bool;
  ROUTES_CACHE_FILE : string;
  service : nat → Params → HttpOutcome;
}.

(** [os.environ.get("GOOGLE_API_KEY", EmptyString)] *)
Definition GOOGLE_API_KEY (env : Env) : string :=
  default EmptyString (environ_GOOGLE_API_KEY env).

Definition BATCH_SIZE : nat := 10.

(** The element limit of the API that the comment in [main] quotes. *)
Definition MAX_ELEMENTS : nat := 100.

(** ** The writer monad of code that prints and raises *)

Definition Printing (A : Type) : Type := res A * list string.

Global Instance Printing_ret : MRet Printing := λ A a, (Return a, []).

Global Instance Printing_bind : MBind Printing := λ A B f m,
  match m with
  | (Return a, out) => let '(r, out') := f a in (r, out ++ out')
  | (Raised e, out) => (Raised e, out)
  end.

Definition print (line : string) : Printing unit := (Return tt, [line]).

Definition throw {A : Type} (e : exn) : Printing A := (Raised e, []).

(** [l[i]] *)
Definition getitem_list {A : Type} (l : list A) (i : nat) : Printing A :=
  match l !! i with
  | Some x => mret x
  | None => throw IndexError
  end.

(** [d[key]] *)
Definition getitem {A : Type} (field : option A) (key : string) : Printing A :=
  match field with
  | Some x => mret x
  | None => throw (KeyError key)
  end.

Definition truediv (a b : Z) : Printing PyFloat.float :=
  match PyFloat.int_truediv a b with
  | Some q => mret q
  | None => throw OverflowError
  end.

(** A [for] loop that threads the value it builds. *)
Fixpoint foldM {A B : Type} (f : B → A → Printing B) (l : list A) (b : B)
    : Printing B :=
  match l with
  | [] => mret b
  | x :: l' => b' ← f b x; foldM f l' b'
  end.

(** ** [process_matrix_response] *)

Definition cache_key (origin destination : Location) : string :=
  loc_id origin +:+ "_" +:+ loc_id destination.

Definition warning_line (origin destination : Location) (element : Element)
    : string :=
  "  Warning: " +:+ str_prefix 20 (loc_nombre origin) +:+ " -> "
    +:+ str_prefix 20 (loc_nombre destination) +:+ ": "
    +:+ fmt_get (el_status element).

(** The body of the inner loop, for the element at column [j]. *)
Definition process_element (origin : Location) (destinations : list Location)
    (routes : gmap string RouteInfo) (je : nat * Element)
    : Printing (gmap string RouteInfo) :=
  let '(j, element) := je in
  destination ← getitem_list destinations j;
  if decide (loc_id origin = loc_id destination) then mret routes
  else if decide (el_status element = Some "OK") then
    distance ← getitem (el_distance element) "distance";
    distance_m ← getitem (value distance) "value";
    duration ← getitem (el_duration element) "duration";
    duration_s ← getitem (value duration) "value";
    km ← truediv distance_m 1000;
    mret (<[cache_key origin destination :=
              {| distance_km := PyFloat.round1 km;
                 duration_seconds := duration_s |}]> routes)
  else
    print (warning_line origin destination element);;
    mret routes.

(** The body of the outer loop, for the row at index [i]. *)
Definition process_row (origins destinations : list Location)
    (routes : gmap string RouteInfo) (ir : nat * Row)
    : Printing (gmap string RouteInfo) :=
  let '(i, row) := ir in
  origin ← getitem_list origins i;
  let elements := default [] (row_elements row) in
  foldM (process_element origin destinations) (enumerate elements) routes.

Definition process_matrix_response (data : MatrixData)
    (origins destinations : list Location)
    : Printing (gmap string RouteInfo) :=
  let routes := ∅ in
  let rows := default [] (data_rows data) in
  foldM (process_row origins destinations) (enumerate rows) routes.

(** ** The state monad of [main] *)

(** What a run has done so far, and the two locals that [main] mutates. *)
Record State := {
  stdout : list string;
  http_log : list Params;
  sleeps : nat;
  cache : gmap string RouteInfo;
  request_count : nat;
  routes_cache_file : option (gmap string RouteInfo);
}.

Definition initial_state : State :=
  {| stdout := []; http_log := []; sleeps := 0; cache := ∅;
     request_count := 0; routes_cache_file := None |}.

Definition Run (A : Type) : Type := State → res A * State.

Global Instance Run_ret : MRet Run := λ A a s, (Return a, s).

Global Instance Run_bind : MBind Run := λ A B f m s,
  match m s with
  | (Return a, s') => f a s'
  | (Raised e, s') => (Raised e, s')
  end.

(** Run code that only prints and raises. *)
Definition say {A : Type} (p : Printing A) : Run A := λ s,
  (p.1, {| stdout := stdout s ++ p.2; http_log := http_log s;
           sleeps := sleeps s; cache := cache s;
           request_count := request_count s;
           routes_cache_file := routes_cache_file s |}).

Definition get_cache : Run (gmap string RouteInfo) := λ s, (Return (cache s), s).

Definition set_cache (c : gmap string RouteInfo) : Run unit := λ s,
  (Return tt, {| stdout := stdout s; http_log := http_log s;
                 sleeps := sleeps s; cache := c;
                 request_count := request_count s;
                 routes_cache_file := routes_cache_file s |}).

Definition get_request_count : Run nat := λ s, (Return (request_count s), s).

Definition set_request_count (k : nat) : Run unit := λ s,
  (Return tt, {| stdout := stdout s; http_log := http_log s;
                 sleeps := sleeps s; cache := cache s;
                 request_count := k;
                 routes_cache_file := routes_cache_file s |}).

(** [time.sleep(0.5)] *)
Definition sleep : Run unit := λ s,
  (Return tt, {| stdout := stdout s; http_log := http_log s;
                 sleeps := S (sleeps s); cache := cache s;
                 request_count := request_count s;
                 routes_cache_file := routes_cache_file s |}).

(** [requests.get(DISTANCE_MATRIX_URL, params=params, timeout=30)] *)
Definition requests_get (env : Env) (params : Params)
    : Run (Z * option MatrixData) := λ s,
  let s' := {| stdout := stdout s; http_log := http_log s ++ [params];
               sleeps := sleeps s; cache := cache s;
               request_count := request_count s;
               routes_cache_file := routes_cache_file s |} in
  match service env (length (http_log s)) params with
  | ConnectionFailed => (Raised RequestException, s')
  | Response status_code body => (Return (status_code, body), s')
  end.

(** [response.json()] for a body of the documented shape; a body that is
    any JSON value is that of [get_distance_matrix_json] below, which does
    the same on a body of this shape. *)
Definition response_json (body : option MatrixData) : Run MatrixData :=
  match body with
  | Some data => mret data
  | None => say (throw JSONDecodeError)
  end.

(** [with open(ROUTES_CACHE_FILE, "w") as f: json.dump(cache, f, ...)].
    [routes_cache_writable] tells whether [open] succeeds; when it fails
    the file is as it was.  The write that follows a successful [open] is
    taken to complete: an error of the system in the middle of
    [json.dump], which would leave a truncated file behind an exception, is
    not among the outcomes of the [Env]. *)
Definition dump_cache (env : Env) (c : gmap string RouteInfo) : Run unit := λ s,
  if routes_cache_writable env then
    (Return tt, {| stdout := stdout s; http_log := http_log s;
                   sleeps := sleeps s; cache := cache s;
                   request_count := request_count s;
                   routes_cache_file := Some c |})
  else (Raised OSError, s).

(** [sys.exit(code)] *)
Definition sys_exit {A : Type} (code : Z) : Run A := say (throw (SystemExit code)).

(** A [for] loop whose body works on the state. *)
Fixpoint for_ {A : Type} (l : list A) (body : A → Run unit) : Run unit :=
  match l with
  | [] => mret tt
  | x :: l' => body x;; for_ l' body
  end.

(** ** [load_locations] and [get_distance_matrix] *)

Definition load_locations (env : Env) : Run (list Location) := λ s,
  (locations_json env, s).

Definition coordinates (loc : Location) : string :=
  loc_latitud loc +:+ "," +:+ loc_longitud loc.

Definition request_params (env : Env) (origins destinations : list Location)
    : Params :=
  let origins_str := join "|" (coordinates <$> origins) in
  let destinations_str := join "|" (coordinates <$> destinations) in
  {| p_origins := origins_str; p_destinations := destinations_str;
     p_mode := "driving"; p_key := GOOGLE_API_KEY env |}.

Definition get_distance_matrix (env : Env) (origins destinations : list Location)
    : Run (option MatrixData) :=
  let params := request_params env origins destinations in
  response ← requests_get env params;
  let '(status_code, body) := response in
  if negb (response_ok status_code) then
    say (print ("HTTP Error: " +:+ pretty status_code));;
    mret None
  else
    data ← response_json body;
    if decide (data_status data ≠ Some "OK") then
      say (print ("API Error: " +:+ fmt_get (data_status data) +:+ " - "
                    +:+ default EmptyString (data_error_message data)));;
      mret None
    else mret (Some data).

(** ** [main] *)

(** One cell of the grid of requests: the slices and their bounds. *)
Record SubQuery := {
  i_start : nat;
  i_end : nat;
  j_start : nat;
  j_end : nat;
  batch_origins : list Location;
  batch_destinations : list Location;
}.

(** [routes = process_matrix_response(data, ...)] and
    [cache.update(routes)]. *)
Definition merge_response (data : MatrixData) (origins destinations : list Location)
    : Run (gmap string RouteInfo) :=
  routes ← say (process_matrix_response data origins destinations);
  c ← get_cache;
  set_cache (routes ∪ c);;
  mret routes.

(** The body of the inner loop of [main], from the [print] of the request
    to the [time.sleep].  [if data:] holds for every [data] that
    [get_distance_matrix] returns, a dict with a key ["status"]. *)
Definition request_batch (env : Env) (sq : SubQuery) : Run unit :=
  k ← get_request_count;
  say (print ("Request " +:+ pretty (k + 1) +:+ ": origins ["
                +:+ pretty (i_start sq + 1) +:+ "-" +:+ pretty (i_end sq)
                +:+ "] × destinations ["
                +:+ pretty (j_start sq + 1) +:+ "-" +:+ pretty (j_end sq) +:+ "]"));;
  data ← get_distance_matrix env (batch_origins sq) (batch_destinations sq);
  match data with
  | Some data =>
      routes ← merge_response data (batch_origins sq) (batch_destinations sq);
      say (print ("  Got " +:+ pretty (size routes) +:+ " routes"))
  | None => say (print "  Failed!")
  end;;
  k ← get_request_count;
  set_request_count (k + 1);;
  sleep.

(** The two nested [for] loops of [main], for a batch size [B]. *)
Definition request_all (env : Env) (locations : list Location) (B : nat)
    : Run unit :=
  let n := length locations in
  for_ (py_range 0 n B) (λ i_start,
    let i_end := (i_start + B) `min` n in
    let batch_origins := slice locations i_start i_end in
    for_ (py_range 0 n B) (λ j_start,
      let j_end := (j_start + B) `min` n in
      let batch_destinations := slice locations j_start j_end in
      request_batch env
        {| i_start := i_start; i_end := i_end;
           j_start := j_start; j_end := j_end;
           batch_origins := batch_origins;
           batch_destinations := batch_destinations |})).

(** [n * (n - 1)] *)
Definition expected_routes (n : nat) : Z := (Z.of_nat n * (Z.of_nat n - 1))%Z.

(** The last line of the summary when routes are missing. *)
Definition deficit_warning (n cached : nat) : string :=
  newline +:+ "Warning: " +:+ pretty (expected_routes n - Z.of_nat cached)%Z
    +:+ " routes failed!".

Definition main (env : Env) : Run unit :=
  say (print (str_times "=" 60));;
  say (print "Route Generation Script (Google Distance Matrix API)");;
  say (print (str_times "=" 60));;
  (if decide (GOOGLE_API_KEY env = EmptyString) then
     say (print "Error: GOOGLE_API_KEY environment variable not set");;
     say (print "Usage: GOOGLE_API_KEY=your_key python scripts/generate_all_routes.py");;
     sys_exit 1
   else mret tt);;
  locations ← load_locations env;
  let n := length locations in
  say (print ("Found " +:+ pretty n +:+ " locations"));;
  say (print ("Total routes to calculate: " +:+ pretty (expected_routes n)));;
  say (print EmptyString);;
  set_cache ∅;;
  set_request_count 0;;
  request_all env locations BATCH_SIZE;;
  c ← get_cache;
  dump_cache env c;;
  say (print EmptyString);;
  say (print (str_times "=" 60));;
  say (print "Summary");;
  say (print (str_times "=" 60));;
  k ← get_request_count;
  say (print ("API requests made: " +:+ pretty k));;
  say (print ("Total routes cached: " +:+ pretty (size c)));;
  say (print ("Expected routes: " +:+ pretty (expected_routes n)));;
  say (print ("Saved to: " +:+ ROUTES_CACHE_FILE env));;
  if decide (Z.of_nat (size c) < expected_routes n)%Z then
    say (print (deficit_warning n (size c)))
  else mret tt.

(** The script as the interpreter runs it: the guarded [import requests],
    then [main()]. *)
Definition script (env : Env) : Run unit :=
  (if requests_installed env then mret tt
   else
     say (print "Error: requests library not installed");;
     say (print "Run: pip install requests");;
     sys_exit 1);;
  main env.

(** The exit status of the interpreter: that of [sys.exit], 1 after an
    exception nobody caught, 0 otherwise. *)
Definition exit_status {A : Type} (r : res A) : Z :=
  match r with
  | Return _ => 0
  | Raised (SystemExit code) => code
  | Raised _ => 1
  end.

(** ** The batch partition *)

(** The bounds [(start, end)] that one [for] header of [main] goes through. *)
Definition chunks (n B : nat) : list (nat * nat) :=
  (λ start, (start, (start + B) `min` n)) <$> py_range 0 n B.

(** The sub-queries in the order in which the nested loops reach them. *)
Definition sub_queries (locations : list Location) (B : nat) : list SubQuery :=
  let n := length locations in
  i_start ← py_range 0 n B;
  let i_end := (i_start + B) `min` n in
  let batch_origins := slice locations i_start i_end in
  j_start ← py_range 0 n B;
  let j_end := (j_start + B) `min` n in
  let batch_destinations := slice locations j_start j_end in
  [ {| i_start := i_start; i_end := i_end;
       j_start := j_start; j_end := j_end;
       batch_origins := batch_origins;
       batch_destinations := batch_destinations |} ].

(** The index pairs [(i, j)] of [locations] that a sub-query asks for. *)
Definition index_pairs (sq : SubQuery) : list (nat * nat) :=
  i ← seq (i_start sq) (i_end sq - i_start sq);
  j ← seq (j_start sq) (j_end sq - j_start sq);
  [ (i, j) ].

(** [ceil(n / B)] *)
Definition ceil_div (n B : nat) : nat := (n + B - 1) / B.

(** The sub-query of a row chunk and a column chunk. *)
Definition cell (locations : list Location) (r c : nat * nat) : SubQuery :=
  {| i_start := r.1; i_end := r.2; j_start := c.1; j_end := c.2;
     batch_origins := slice locations r.1 r.2;
     batch_destinations := slice locations c.1 c.2 |}.

(** [batch] holds the locations of indices [start], ..., [stop - 1]. *)
Definition holds_range (locations : list Location) (start stop : nat)
    (batch : list Location) : Prop :=
  length batch = stop - start ∧
  ∀ a, a < stop - start → batch !! a = locations !! (start + a).

(** ** The aggregation, said without loops *)

Definition rows_of (data : MatrixData) : list Row := default [] (data_rows data).

Definition elements_of (row : Row) : list Element := default [] (row_elements row).

(** The response has no more rows than there are origins, and no row has
    more elements than there are destinations. *)
Definition fits (data : MatrixData) (origins destinations : list Location) : Prop :=
  length (rows_of data) ≤ length origins
  ∧ Forall (λ row, length (elements_of row) ≤ length destinations) (rows_of data).

(** The cache value that an element with status OK gives, when it has its
    two measures and the distance is not too large for a float. *)
Definition entry_of (element : Element) : option RouteInfo :=
  distance ← el_distance element;
  distance_m ← value distance;
  duration ← el_duration element;
  duration_s ← value duration;
  km ← PyFloat.int_truediv distance_m 1000;
  Some {| distance_km := PyFloat.round1 km; duration_seconds := duration_s |}.

(** An element that the aggregation can read without raising. *)
Definition readable (element : Element) : Prop :=
  el_status element = Some "OK" → is_Some (entry_of element).

Definition all_readable (data : MatrixData) : Prop :=
  Forall (λ row, Forall readable (elements_of row)) (rows_of data).

(** The pairs at matching row and column positions, with their element, in
    the order of the loops: row [i] pairs [origins[i]] with the
    destinations of the columns of its elements. *)
Definition row_positions (origin : Location) (destinations : list Location)
    (k : nat) (elements : list Element) : list (Location * Location * Element) :=
  omap (λ je, d ← destinations !! je.1; Some (origin, d, je.2))
       (enumerate_from k elements).

Definition positions_from (origins destinations : list Location)
    (k : nat) (rows : list Row) : list (Location * Location * Element) :=
  ir ← enumerate_from k rows;
  match origins !! ir.1 with
  | Some origin => row_positions origin destinations 0 (elements_of ir.2)
  | None => []
  end.

Definition positions (data : MatrixData) (origins destinations : list Location)
    : list (Location * Location * Element) :=
  positions_from origins destinations 0 (rows_of data).

(** The cache writes that the positions stand for, oldest first: one for
    every pair of different ids whose element has status OK. *)
Definition writes (ps : list (Location * Location * Element))
    : list (string * RouteInfo) :=
  omap (λ p : Location * Location * Element,
          let '(o, d, element) := p in
          if decide (loc_id o ≠ loc_id d ∧ el_status element = Some "OK")
          then e ← entry_of element; Some (cache_key o d, e)
          else None) ps.

(** [routes[k] = v] for every write, in order. *)
Definition store (routes : gmap string RouteInfo) (ws : list (string * RouteInfo))
    : gmap string RouteInfo :=
  foldl (λ m kv, <[kv.1 := kv.2]> m) routes ws.

(** The failure records of section 4.3 of the specification: one line for
    every pair of different ids whose element has a status other than OK. *)
Definition failure_records (ps : list (Location * Location * Element))
    : list string :=
  omap (λ p : Location * Location * Element,
          let '(o, d, element) := p in
          if decide (loc_id o ≠ loc_id d ∧ el_status element ≠ Some "OK")
          then Some (warning_line o d element)
          else None) ps.

(** The row of [origin] can be read to its end: every element has a
    destination, and a value to write when the loop comes to write one. *)
Definition row_ok (origin : Location) (destinations : list Location)
    (k : nat) (elements : list Element) : Prop :=
  Forall (λ je : nat * Element,
            ∃ d, destinations !! je.1 = Some d
                 ∧ (loc_id origin ≠ loc_id d → el_status je.2 = Some "OK" →
                    is_Some (entry_of je.2)))
         (enumerate_from k elements).

Definition rows_ok (origins destinations : list Location)
    (k : nat) (rows : list Row) : Prop :=
  Forall (λ ir : nat * Row,
            ∃ o, origins !! ir.1 = Some o
                 ∧ row_ok o destinations 0 (elements_of ir.2))
         (enumerate_from k rows).

(** [el] sits in the response at a row and a column whose origin and
    destination are [o] and [d]. *)
Definition at_position (data : MatrixData) (origins destinations : list Location)
    (o d : Location) (el : Element) : Prop :=
  ∃ i j row, rows_of data !! i = Some row ∧ elements_of row !! j = Some el
             ∧ origins !! i = Some o ∧ destinations !! j = Some d.



(** An element without any field. *)
Definition blank : Element :=
  {| el_status := None; el_distance := None; el_duration := None |}.

(** The elements of a row with those of the self-pairs replaced by [blank]. *)
Fixpoint mask_elements (origin : option Location) (destinations : list Location)
    (k : nat) (elements : list Element) : list Element :=
  match elements with
  | [] => []
  | element :: rest =>
      (match origin, destinations !! k with
       | Some o, Some d => if decide (loc_id o = loc_id d) then blank else element
       | _, _ => element
       end) :: mask_elements origin destinations (S k) rest
  end.

Fixpoint mask_rows (origins destinations : list Location) (k : nat)
    (rows : list Row) : list Row :=
  match rows with
  | [] => []
  | row :: rest =>
      {| row_elements :=
           mask_elements (origins !! k) destinations 0 <$> row_elements row |}
      :: mask_rows origins destinations (S k) rest
  end.

(** The response with the elements of all self-pairs replaced by [blank]. *)
Definition mask (origins destinations : list Location) (data : MatrixData)
    : MatrixData :=
  {| data_status := data_status data;
     data_error_message := data_error_message data;
     data_rows := mask_rows origins destinations 0 <$> data_rows data |}.

(** ** The run, request by request *)

(** The routes that a sub-query adds to the cache when [k] requests were
    made before its own: none after a response that is not [ok] or whose
    status is not OK. *)
Definition cell_routes (env : Env) (k : nat) (sq : SubQuery)
    : res (gmap string RouteInfo) :=
  match service env k (request_params env (batch_origins sq) (batch_destinations sq)) with
  | ConnectionFailed => Raised RequestException
  | Response status_code body =>
      if response_ok status_code then
        match body with
        | None => Raised JSONDecodeError
        | Some data =>
            if decide (data_status data = Some "OK") then
              (process_matrix_response data (batch_origins sq)
                 (batch_destinations sq)).1
            else Return ∅
        end
      else Return ∅
  end.

(** The cache after the sub-queries [sqs], the first of which is request
    number [k], up to the first that raises. *)
Fixpoint merged (env : Env) (k : nat) (sqs : list SubQuery)
    (c : gmap string RouteInfo) : gmap string RouteInfo :=
  match sqs with
  | [] => c
  | sq :: rest =>
      match cell_routes env k sq with
      | Return routes => merged env (S k) rest (routes ∪ c)
      | Raised _ => c
      end
  end.

(** Every request of the run gets a response; a response that is [ok] has
    a JSON body; a body with status OK has a grid that fits the batches and
    whose elements can be read. *)
Definition answered (env : Env) (locations : list Location) : Prop :=
  ∀ k sq, sub_queries locations BATCH_SIZE !! k = Some sq →
    ∃ status_code body,
      service env k (request_params env (batch_origins sq) (batch_destinations sq))
        = Response status_code body
      ∧ (response_ok status_code = true →
         ∃ data, body = Some data
                 ∧ (data_status data = Some "OK" →
                    fits data (batch_origins sq) (batch_destinations sq)
                    ∧ all_readable data)).

(** A grid of [r] rows of [c] elements, all of them OK and readable. *)
Definition full_ok_grid (data : MatrixData) (r c : nat) : Prop :=
  length (rows_of data) = r
  ∧ Forall (λ row, length (elements_of row) = c
                   ∧ Forall (λ el, el_status el = Some "OK" ∧ is_Some (entry_of el))
                            (elements_of row))
           (rows_of data).

(** Every request of the run is answered with success, status OK and a
    full grid of OK elements. *)
Definition all_ok (env : Env) (locations : list Location) : Prop :=
  ∀ k sq, sub_queries locations BATCH_SIZE !! k = Some sq →
    ∃ status_code data,
      service env k (request_params env (batch_origins sq) (batch_destinations sq))
        = Response status_code (Some data)
      ∧ response_ok status_code = true
      ∧ data_status data = Some "OK"
      ∧ full_ok_grid data (length (batch_origins sq)) (length (batch_destinations sq)).

(** The keys of different ordered pairs of different locations differ. *)
Definition keys_distinct (locations : list Location) : Prop :=
  ∀ o d o' d', o ∈ locations → d ∈ locations → o' ∈ locations → d' ∈ locations →
    cache_key o d = cache_key o' d' → loc_id o = loc_id o' ∧ loc_id d = loc_id d'.

(** Does the text hold the separator of the keys? *)
Fixpoint has_underscore (s : string) : bool :=
  match s with
  | EmptyString => false
  | String a s' => bool_decide (a = Ascii.ascii_of_nat 95) || has_underscore s'
  end.

(** The ordered pairs of locations with different ids. *)
Definition non_self_pairs (locations : list Location) : list (Location * Location) :=
  filter (λ p, loc_id p.1 ≠ loc_id p.2) (list_prod locations locations).

(** The number of sub-queries of [sqs] that are requested and aggregated
    before the first that raises, when [k] requests were made before. *)
Fixpoint completed (env : Env) (k : nat) (sqs : list SubQuery) : nat :=
  match sqs with
  | [] => 0
  | sq :: rest =>
      match cell_routes env k sq with
      | Return _ => S (completed env (S k) rest)
      | Raised _ => 0
      end
  end.

(** The exception of the first sub-query that raises, if one does. *)
Fixpoint first_error (env : Env) (k : nat) (sqs : list SubQuery) : option exn :=
  match sqs with
  | [] => None
  | sq :: rest =>
      match cell_routes env k sq with
      | Return _ => first_error env (S k) rest
      | Raised e => Some e
      end
  end.

(** The parameters of the request of a sub-query. *)
Definition params_of (env : Env) (sq : SubQuery) : Params :=
  request_params env (batch_origins sq) (batch_destinations sq).

(** The pair has different ids. *)
Definition non_self (p : Location * Location * Element) : Prop :=
  loc_id p.1.1 ≠ loc_id p.1.2.

Global Instance non_self_dec (p : Location * Location * Element) :
  Decision (non_self p) := _.

(** The element of the position has status OK. *)
Definition position_ok (p : Location * Location * Element) : Prop :=
  el_status p.2 = Some "OK".

Global Instance position_ok_dec (p : Location * Location * Element) :
  Decision (position_ok p) := _.

(** ** The response as any JSON value *)

#[local] Set Warnings "-register-all".

(** The records above stand for JSON of the documented shape.  What
    [json.loads] gives is any of [None], [bool], [int], [float], [str],
    [list] and [dict] with [str] keys; the two functions that read the
    response are embedded a second time over such values, where [.get] on
    a value that is not a [dict], a subscript of one and a division of
    what is not a number raise as in Python.  A [dict] is the list of its
    items in insertion order, with distinct keys. *)
Inductive json :=
  | JNull
  | JBool (b : bool)
  | JInt (z : Z)
  | JFloat (x : PyFloat.float)
  | JStr (s : string)
  | JList (items : list json)
  | JDict (items : list (string * json)).

Fixpoint lookup_item (key : string) (items : list (string * json)) : option json :=
  match items with
  | [] => None
  | (k, v) :: rest => if decide (k = key) then Some v else lookup_item key rest
  end.

(** [v.get(key)]: only a [dict] has the method. *)
Definition dict_get (v : json) (key : string) : Printing (option json) :=
  match v with
  | JDict items => mret (lookup_item key items)
  | _ => throw AttributeError
  end.

(** [v[key]] for a [str] key: [KeyError] on a [dict] without the key,
    [TypeError] on every other value. *)
Definition subscript (v : json) (key : string) : Printing json :=
  match v with
  | JDict items =>
      match lookup_item key items with
      | Some x => mret x
      | None => throw (KeyError key)
      end
  | _ => throw TypeError
  end.

(** What [for x in v] and [enumerate(v)] go through: the items of a
    [list], the characters of a [str], the keys of a [dict]; other values
    are not iterable. *)
Definition iterate (v : json) : Printing (list json) :=
  match v with
  | JList items => mret items
  | JStr s => mret (JStr <$> chars s)
  | JDict items => mret (JStr <$> items.*1)
  | _ => throw TypeError
  end.

(** [v / b] for an [int] [b] that is not zero and that a [float] holds
    exactly, as 1000 is: an [int] (and a [bool], which is one) is divided
    as above; a [float] is divided by the [float] of [b], without any
    exception. *)
Definition truediv_json (v : json) (b : Z) : Printing PyFloat.float :=
  match v with
  | JInt z => truediv z b
  | JBool t => truediv (if t then 1 else 0) b
  | JFloat x => mret (SFdiv PyFloat.prec PyFloat.emax x (PyFloat.of_int b))
  | _ => throw TypeError
  end.

(** [v == "OK"] for the result [v] of a [.get]. *)
Definition is_OK (v : option json) : bool :=
  match v with
  | Some (JStr s) => bool_decide (s = "OK")
  | _ => false
  end.

(** A value of the routes: the duration is whatever the response holds. *)
Record JsonRouteInfo := {
  json_distance_km : PyFloat.float;
  json_duration_seconds : json;
}.

Inductive JsonOutcome :=
  | JsonConnectionFailed
  | JsonResponse (status_code : Z) (body : option json).

Section Json.

(** [str(v)] of a [float], a [list] or a [dict], which is not embedded:
    what follows holds for any such function. *)
Variable repr : json → string.

(** How an f-string renders a value. *)
Definition py_str (v : json) : string :=
  match v with
  | JNull => "None"
  | JBool true => "True"
  | JBool false => "False"
  | JInt z => pretty z
  | JStr s => s
  | _ => repr v
  end.

(** [f"{loc['latitud']},{loc['longitud']}"] *)
Definition coordinates_json (loc : json) : Printing string :=
  latitud ← subscript loc "latitud";
  longitud ← subscript loc "longitud";
  mret (py_str latitud +:+ "," +:+ py_str longitud).

Definition request_params_json (key : string) (origins destinations : list json)
    : Printing Params :=
  origin_parts ← mapM coordinates_json origins;
  let origins_str := join "|" origin_parts in
  destination_parts ← mapM coordinates_json destinations;
  let destinations_str := join "|" destination_parts in
  mret {| p_origins := origins_str; p_destinations := destinations_str;
          p_mode := "driving"; p_key := key |}.

Definition requests_get_json (service : nat → Params → JsonOutcome)
    (params : Params) : Run (Z * option json) := λ s,
  let s' := {| stdout := stdout s; http_log := http_log s ++ [params];
               sleeps := sleeps s; cache := cache s;
               request_count := request_count s;
               routes_cache_file := routes_cache_file s |} in
  match service (length (http_log s)) params with
  | JsonConnectionFailed => (Raised RequestException, s')
  | JsonResponse status_code body => (Return (status_code, body), s')
  end.

(** [get_distance_matrix] for locations and a body that are any JSON
    values. *)
Definition get_distance_matrix_json (key : string)
    (service : nat → Params → JsonOutcome) (origins destinations : list json)
    : Run (option json) :=
  params ← say (request_params_json key origins destinations);
  response ← requests_get_json service params;
  let '(status_code, body) := response in
  if negb (response_ok status_code) then
    say (print ("HTTP Error: " +:+ pretty status_code));;
    mret None
  else
    data ← match body with
           | Some data => mret data
           | None => say (throw JSONDecodeError)
           end;
    status ← say (dict_get data "status");
    if negb (is_OK status) then
      error_message ← say (dict_get data "error_message");
      say (print ("API Error: " +:+ py_str (default JNull status) +:+ " - "
                    +:+ py_str (default (JStr EmptyString) error_message)));;
      mret None
    else mret (Some data).

Definition warning_line_json (origin destination : Location)
    (status : option json) : string :=
  "  Warning: " +:+ str_prefix 20 (loc_nombre origin) +:+ " -> "
    +:+ str_prefix 20 (loc_nombre destination) +:+ ": "
    +:+ py_str (default JNull status).

(** [process_matrix_response] for a body that is any JSON value. *)
Definition process_element_json (origin : Location) (destinations : list Location)
    (routes : gmap string JsonRouteInfo) (je : nat * json)
    : Printing (gmap string JsonRouteInfo) :=
  let '(j, element) := je in
  destination ← getitem_list destinations j;
  if decide (loc_id origin = loc_id destination) then mret routes
  else
    status ← dict_get element "status";
    if is_OK status then
      distance ← subscript element "distance";
      distance_m ← subscript distance "value";
      duration ← subscript element "duration";
      duration_s ← subscript duration "value";
      km ← truediv_json distance_m 1000;
      mret (<[cache_key origin destination :=
                {| json_distance_km := PyFloat.round1 km;
                   json_duration_seconds := duration_s |}]> routes)
    else
      print (warning_line_json origin destination status);;
      mret routes.

Definition process_row_json (origins destinations : list Location)
    (routes : gmap string JsonRouteInfo) (ir : nat * json)
    : Printing (gmap string JsonRouteInfo) :=
  let '(i, row) := ir in
  origin ← getitem_list origins i;
  elements ← dict_get row "elements";
  items ← iterate (default (JList []) elements);
  foldM (process_element_json origin destinations) (enumerate items) routes.

Definition process_matrix_response_json (data : json)
    (origins destinations : list Location)
    : Printing (gmap string JsonRouteInfo) :=
  let routes := ∅ in
  rows ← dict_get data "rows";
  items ← iterate (default (JList []) rows);
  foldM (process_row_json origins destinations) (enumerate items) routes.

(** The location record of a [dict] with the four keys, whose [id] and
    [nombre] are [str]. *)
Definition as_location (v : json) : option Location :=
  match v with
  | JDict items =>
      id ← lookup_item "id" items;
      nombre ← lookup_item "nombre" items;
      latitud ← lookup_item "latitud" items;
      longitud ← lookup_item "longitud" items;
      match id, nombre with
      | JStr id, JStr nombre =>
          Some {| loc_id := id; loc_nombre := nombre;
                  loc_latitud := py_str latitud;
                  loc_longitud := py_str longitud |}
      | _, _ => None
      end
  | _ => None
  end.

End Json.

(** *** Bodies of the documented shape *)

Definition as_str (v : json) : option string :=
  match v with
  | JStr s => Some s
  | _ => None
  end.

Definition as_int (v : json) : option Z :=
  match v with
  | JInt z => Some z
  | _ => None
  end.

(** The field of a record: [Some None] for an absent key, nothing when
    the value of the key has not the expected shape. *)
Definition field {A : Type} (shape : json → option A)
    (items : list (string * json)) (key : string) : option (option A) :=
  match lookup_item key items with
  | None => Some None
  | Some v => Some <$> shape v
  end.

Definition as_list {A : Type} (shape : json → option A) (v : json)
    : option (list A) :=
  match v with
  | JList items => mapM shape items
  | _ => None
  end.

Definition as_measure (v : json) : option Measure :=
  match v with
  | JDict items =>
      value ← field as_int items "value";
      Some {| value := value |}
  | _ => None
  end.

Definition as_element (v : json) : option Element :=
  match v with
  | JDict items =>
      status ← field as_str items "status";
      distance ← field as_measure items "distance";
      duration ← field as_measure items "duration";
      Some {| el_status := status; el_distance := distance;
              el_duration := duration |}
  | _ => None
  end.

Definition as_row (v : json) : option Row :=
  match v with
  | JDict items =>
      elements ← field (as_list as_element) items "elements";
      Some {| row_elements := elements |}
  | _ => None
  end.

(** The record of a body: a [dict] whose [status] and [error_message], if
    any, are [str], whose [rows] are a [list] of [dict]s with a [list] of
    elements, each a [dict] with a [str] status and with measures that
    are [dict]s with an [int] value. *)
Definition as_data (v : json) : option MatrixData :=
  match v with
  | JDict items =>
      status ← field as_str items "status";
      error_message ← field as_str items "error_message";
      rows ← field (as_list as_row) items "rows";
      Some {| data_status := status; data_error_message := error_message;
              data_rows := rows |}
  | _ => None
  end.

Definition as_outcome (answer : JsonOutcome) : option HttpOutcome :=
  match answer with
  | JsonConnectionFailed => Some ConnectionFailed
  | JsonResponse status_code None => Some (Response status_code None)
  | JsonResponse status_code (Some v) =>
      data ← as_data v; Some (Response status_code (Some data))
  end.

(** A value of the routes of the records, among those of any body. *)
Definition json_route (e : RouteInfo) : JsonRouteInfo :=
  {| json_distance_km := distance_km e;
     json_duration_seconds := JInt (duration_seconds e) |}.

(** A result of the aggregation over records, as one over any body. *)
Definition json_routes (p : Printing (gmap string RouteInfo))
    : Printing (gmap string JsonRouteInfo) :=
  (match p.1 with
   | Return routes => Return (json_route <$> routes)
   | Raised e => Raised e
   end, p.2).

(** ** Sample data *)

Module Sample.

Definition place (name : string) : Location :=
  {| loc_id := name; loc_nombre := "Ciudad " +:+ name;
     loc_latitud := "-34.6"; loc_longitud := "-58.4" |}.

Definition three : list Location := place <$> ["a"; "b"; "c"].

Definition ok_element (distance_m duration_s : Z) : Element :=
  {| el_status := Some "OK";
     el_distance := Some {| value := Some distance_m |};
     el_duration := Some {| value := Some duration_s |} |}.

Definition failed_element (status : string) : Element :=
  {| el_status := Some status; el_distance := None; el_duration := None |}.

(** A 2 x 3 response: no route from [a] to [c]. *)
Definition response : MatrixData :=
  {| data_status := Some "OK"; data_error_message := None;
     data_rows := Some
       [ {| row_elements := Some [ok_element 0 0; ok_element 1150 95;
                                  failed_element "ZERO_RESULTS"] |};
         {| row_elements := Some [ok_element 1250 101; ok_element 0 0;
                                  ok_element 30450 1800] |} ] |}.

(** A grid of [r] rows of [c] elements, all OK. *)
Definition grid (r c : nat) : MatrixData :=
  {| data_status := Some "OK"; data_error_message := None;
     data_rows := Some (replicate r
                          {| row_elements := Some (replicate c (ok_element 1150 95)) |}) |}.

Definition eleven : list Location :=
  place <$> ["a"; "b"; "c"; "d"; "e"; "f"; "g"; "h"; "i"; "j"; "k"].

(** The first request is answered in full, the second one fails to
    connect. *)
Definition offline_at_second (k : nat) (p : Params) : HttpOutcome :=
  match k with
  | 0 => Response 200 (Some (grid 10 10))
  | 1 => ConnectionFailed
  | 2 => Response 200 (Some (grid 1 10))
  | _ => Response 200 (Some (grid 1 1))
  end.

Definition env_offline : Env :=
  {| requests_installed := true; environ_GOOGLE_API_KEY := Some "secret";
     locations_json := Return eleven; routes_cache_writable := true;
     ROUTES_CACHE_FILE := "data/routes_cache.json";
     service := offline_at_second |}.

(** The second request gets a 500, the third one an API error. *)
Definition failing_softly (k : nat) (p : Params) : HttpOutcome :=
  match k with
  | 0 => Response 200 (Some (grid 10 10))
  | 1 => Response 500 None
  | 2 => Response 200 (Some {| data_status := Some "OVER_QUERY_LIMIT";
                               data_error_message := Some "quota";
                               data_rows := None |})
  | _ => Response 200 (Some (grid 1 1))
  end.

Definition env_degraded : Env :=
  {| requests_installed := true; environ_GOOGLE_API_KEY := Some "secret";
     locations_json := Return eleven; routes_cache_writable := true;
     ROUTES_CACHE_FILE := "data/routes_cache.json";
     service := failing_softly |}.

(** One request, answered in full. *)
Definition env_three : Env :=
  {| requests_installed := true; environ_GOOGLE_API_KEY := Some "secret";
     locations_json := Return three; routes_cache_writable := true;
     ROUTES_CACHE_FILE := "data/routes_cache.json";
     service := λ _ _, Response 200 (Some (grid 3 3)) |}.

(** The credential is there, the [requests] library is not. *)
Definition env_no_requests : Env :=
  {| requests_installed := false; environ_GOOGLE_API_KEY := Some "secret";
     locations_json := Return three; routes_cache_writable := true;
     ROUTES_CACHE_FILE := "data/routes_cache.json";
     service := λ _ _, Response 200 (Some (grid 3 3)) |}.

(** Two locations with different ids and one key for both routes. *)
Definition clashing : list Location := place <$> ["a"; "a_a"].

Definition env_clashing : Env :=
  {| requests_installed := true; environ_GOOGLE_API_KEY := Some "secret";
     locations_json := Return clashing; routes_cache_writable := true;
     ROUTES_CACHE_FILE := "data/routes_cache.json";
     service := λ _ _, Response 200 (Some (grid 2 2)) |}.

(** The locations file is missing. *)
Definition env_no_locations : Env :=
  {| requests_installed := true; environ_GOOGLE_API_KEY := Some "secret";
     locations_json := Raised OSError; routes_cache_writable := true;
     ROUTES_CACHE_FILE := "data/routes_cache.json";
     service := λ _ _, Response 200 (Some (grid 3 3)) |}.

(** The cache file cannot be written. *)
Definition env_read_only : Env :=
  {| requests_installed := true; environ_GOOGLE_API_KEY := Some "secret";
     locations_json := Return three; routes_cache_writable := false;
     ROUTES_CACHE_FILE := "data/routes_cache.json";
     service := λ _ _, Response 200 (Some (grid 3 3)) |}.

(** No location at all. *)
Definition env_empty : Env :=
  {| requests_installed := true; environ_GOOGLE_API_KEY := Some "secret";
     locations_json := Return []; routes_cache_writable := true;
     ROUTES_CACHE_FILE := "data/routes_cache.json";
     service := λ _ _, ConnectionFailed |}.

(** A row with the same key written twice: [a] to [b_c] and [a_b] to [c]. *)
Definition colliding_response : MatrixData :=
  {| data_status := Some "OK"; data_error_message := None;
     data_rows := Some
       [ {| row_elements := Some [ok_element 1150 95; ok_element 0 0] |};
         {| row_elements := Some [ok_element 0 0; ok_element 30450 1800] |} ] |}.

Definition two_origins : list Location := place <$> ["a"; "a_b"].

Definition two_destinations : list Location := place <$> ["b_c"; "c"].

(** [str] of the two floats of [place]. *)
Definition repr (v : json) : string :=
  match v with
  | JFloat (S754_finite true 4869517097094349 (-47)) => "-34.6"
  | JFloat (S754_finite true 8219069319951155 (-47)) => "-58.4"
  | _ => "?"
  end.

(** [place name] as [json.load] gives it. *)
Definition json_place (name : string) : json :=
  JDict [("id", JStr name); ("nombre", JStr ("Ciudad " +:+ name));
         ("latitud", JFloat (S754_finite true 4869517097094349 (-47)));
         ("longitud", JFloat (S754_finite true 8219069319951155 (-47)))].

Definition json_measure (text : string) (n : Z) : json :=
  JDict [("text", JStr text); ("value", JInt n)].

Definition json_ok_element (distance_m duration_s : Z) : json :=
  JDict [("distance", json_measure "km" distance_m);
         ("duration", json_measure "mins" duration_s);
         ("status", JStr "OK")].

Definition json_failed_element (status : string) : json :=
  JDict [("status", JStr status)].

(** The body of [response]. *)
Definition json_response : json :=
  JDict [("destination_addresses", JList [JStr "A"; JStr "B"; JStr "C"]);
         ("origin_addresses", JList [JStr "A"; JStr "B"]);
         ("rows", JList
            [ JDict [("elements", JList [json_ok_element 0 0;
                                         json_ok_element 1150 95;
                                         json_failed_element "ZERO_RESULTS"])];
              JDict [("elements", JList [json_ok_element 1250 101;
                                         json_ok_element 0 0;
                                         json_ok_element 30450 1800])] ]);
         ("status", JStr "OK")].

(** Bodies that are JSON and have not the documented shape. *)
Definition json_null_rows : json :=
  JDict [("rows", JNull); ("status", JStr "OK")].

Definition json_text_distance : json :=
  JDict [("rows", JList
            [ JDict [("elements", JList
                        [ JDict [("distance", JStr "1.2 km");
                                 ("duration", json_measure "mins" 95);
                                 ("status", JStr "OK")] ])] ]);
         ("status", JStr "OK")].

(** A location without its latitude. *)
Definition json_no_latitud : json :=
  JDict [("id", JStr "z"); ("nombre", JStr "Ciudad z");
         ("longitud", JFloat (S754_finite true 8219069319951155 (-47)))].

(** A service that answers with a list, and one that answers with a
    quota error. *)
Definition answers_list (k : nat) (p : Params) : JsonOutcome :=
  JsonResponse 200 (Some (JList [])).

Definition answers_quota (k : nat) (p : Params) : JsonOutcome :=
  JsonResponse 200 (Some (JDict [("error_message", JStr "quota");
                                 ("rows", JList []);
                                 ("status", JStr "OVER_QUERY_LIMIT")])).

End Sample.

(** * Proofs *)

#[local] Set Warnings "-clear-no-such-hyp".

(** ** The batch partition *)

Lemma length_cross {A B C : Type} (f : A → B → C) (rs : list A) (cs : list B) :
  length (r ← rs; c ← cs; [f r c]) = length rs * length cs.
Proof.
  induction rs as [|r rs IH]; [done|].
  rewrite bind_cons, length_app, IH. simpl. f_equal.
  clear. induction cs as [|c cs IH]; [done|].
  by rewrite bind_cons, length_app, IH.
Qed.

Section Partition.
Context (B : nat) (HB : 1 ≤ B).

Lemma ceil_div_lt (n c : nat) : c < ceil_div n B ↔ c * B < n.
Proof.
  unfold ceil_div. split.
  - intros H. destruct (decide (c * B < n)) as [|Hn]; [done|].
    exfalso. assert ((n + B - 1) / B < S c); [|lia].
    apply Nat.Div0.div_lt_upper_bound. lia.
  - intros H. assert (S c ≤ (n + B - 1) / B); [|lia].
    apply Nat.div_le_lower_bound; lia.
Qed.

Lemma range_len (n : nat) :
  (if decide (0 < n) then S ((n - 0 - 1) / B) else 0) = ceil_div n B.
Proof.
  case_decide as Hn.
  - apply Nat.le_antisymm.
    + apply ceil_div_lt.
      pose proof (Nat.Div0.mul_div_le (n - 0 - 1) B). lia.
    + destruct (decide (ceil_div n B ≤ S ((n - 0 - 1) / B))) as [|Hc]; [done|].
      exfalso. assert (S ((n - 0 - 1) / B) < ceil_div n B) as Hlt by lia.
      apply ceil_div_lt in Hlt.
      pose proof (Nat.mul_succ_div_gt (n - 0 - 1) B). lia.
  - assert (n = 0) as -> by lia. unfold ceil_div.
    symmetry. apply Nat.div_small. lia.
Qed.

Lemma py_range_seq (n : nat) :
  py_range 0 n B = (λ k, k * B) <$> seq 0 (ceil_div n B).
Proof. unfold py_range. by rewrite range_len. Qed.

Lemma py_range_length (n : nat) : length (py_range 0 n B) = ceil_div n B.
Proof. by rewrite py_range_seq, length_fmap, length_seq. Qed.

Lemma chunks_seq (n : nat) :
  chunks n B = (λ k, (k * B, (k * B + B) `min` n)) <$> seq 0 (ceil_div n B).
Proof. unfold chunks. rewrite py_range_seq, <- list_fmap_compose. done. Qed.

Lemma chunks_lookup (n k : nat) (c : nat * nat) :
  chunks n B !! k = Some c ↔
  k * B < n ∧ c = (k * B, (k * B + B) `min` n).
Proof.
  rewrite chunks_seq, list_lookup_fmap, <- ceil_div_lt.
  destruct (decide (k < ceil_div n B)) as [Hk|Hk].
  - rewrite lookup_seq_lt by done. simpl.
    split; [by intros [= <-] | by intros [_ ->]].
  - rewrite lookup_seq_ge by lia. simpl.
    split; [done | by intros [? _]].
Qed.

(** The chunks tile the index range, in order and without gaps. *)
Lemma chunks_prefix (n c : nat) :
  c ≤ ceil_div n B →
  ((λ k, (k * B, (k * B + B) `min` n)) <$> seq 0 c) ≫= (λ c, seq c.1 (c.2 - c.1))
  = seq 0 ((c * B) `min` n).
Proof.
  induction c as [|c IH]; intros Hc; [done|].
  assert (c * B < n) as Hlt by (apply ceil_div_lt; lia).
  rewrite seq_S, fmap_app, bind_app, IH by lia. simpl.
  rewrite app_nil_r.
  replace ((c * B) `min` n) with (c * B) by lia.
  replace ((B + c * B) `min` n) with (c * B + ((c * B + B) `min` n - c * B)) by lia.
  by rewrite seq_app.
Qed.

Lemma chunks_tile (n : nat) :
  chunks n B ≫= (λ c, seq c.1 (c.2 - c.1)) = seq 0 n.
Proof.
  rewrite chunks_seq, chunks_prefix by done.
  f_equal. destruct (decide (n ≤ ceil_div n B * B)); [lia|].
  assert (ceil_div n B < ceil_div n B); [|lia].
  apply ceil_div_lt. lia.
Qed.

Lemma chunks_bounds (n : nat) :
  Forall (λ c, c.1 < c.2 ∧ c.2 ≤ n ∧ c.2 - c.1 ≤ B) (chunks n B).
Proof.
  apply Forall_lookup. intros k c [Hk ->]%chunks_lookup. simpl. lia.
Qed.

Lemma chunks_full (n k : nat) (c : nat * nat) :
  chunks n B !! k = Some c → S k < length (chunks n B) → c.2 - c.1 = B.
Proof.
  intros [Hk ->]%chunks_lookup. unfold chunks.
  rewrite length_fmap, py_range_length, ceil_div_lt. simpl. lia.
Qed.

Lemma sub_queries_cross (locations : list Location) :
  sub_queries locations B =
  r ← chunks (length locations) B; c ← chunks (length locations) B;
  [cell locations r c].
Proof.
  unfold sub_queries, chunks. rewrite list_fmap_bind.
  apply list_bind_ext; [|done]. intros i. simpl.
  rewrite list_fmap_bind. by apply list_bind_ext.
Qed.

Lemma sub_queries_length (locations : list Location) :
  length (sub_queries locations B) =
  ceil_div (length locations) B * ceil_div (length locations) B.
Proof.
  rewrite sub_queries_cross, length_cross.
  unfold chunks. by rewrite length_fmap, py_range_length.
Qed.
End Partition.

Lemma list_prod_app_l {A B : Type} (l1 l2 : list A) (k : list B) :
  list_prod (l1 ++ l2) k = list_prod l1 k ++ list_prod l2 k.
Proof. induction l1 as [|x l1 IH]; simpl; [done|]. by rewrite IH, app_assoc. Qed.

Lemma list_prod_app_r {A B : Type} (l : list A) (k1 k2 : list B) :
  list_prod l (k1 ++ k2) ≡ₚ list_prod l k1 ++ list_prod l k2.
Proof.
  induction l as [|x l IH]; simpl; [done|].
  rewrite IH, map_app. solve_Permutation.
Qed.

Lemma list_prod_bind {A B : Type} (xs : list A) (ys : list B) :
  list_prod xs ys = (x ← xs; y ← ys; [(x, y)]).
Proof.
  induction xs as [|x xs IH]; [done|].
  rewrite bind_cons, <- IH. simpl. f_equal.
Qed.

Lemma NoDup_list_prod {A B : Type} (xs : list A) (ys : list B) :
  NoDup xs → NoDup ys → NoDup (list_prod xs ys).
Proof.
  intros Hxs Hys. rewrite list_prod_bind. apply NoDup_bind; [| |done].
  - intros x1 x2 p _ _.
    intros (y1 & ->%list_elem_of_singleton & _)%list_elem_of_bind.
    intros (y2 & [= -> _]%list_elem_of_singleton & _)%list_elem_of_bind. done.
  - intros x _. apply NoDup_bind; [| |done].
    + intros y1 y2 p _ _ ->%list_elem_of_singleton [= ->]%list_elem_of_singleton. done.
    + intros y _. apply NoDup_singleton.
Qed.

(** Crossing two tilings tiles the product. *)
Lemma cross_tiles {A B C D : Type} (f : A → list C) (g : B → list D)
    (rs : list A) (cs : list B) :
  (r ← rs; c ← cs; list_prod (f r) (g c)) ≡ₚ list_prod (rs ≫= f) (cs ≫= g).
Proof.
  induction rs as [|r rs IH]; [done|].
  rewrite !bind_cons, list_prod_app_l, IH.
  apply Permutation_app; [|done].
  clear IH. induction cs as [|c cs IH].
  - clear. by induction (f r).
  - by rewrite !bind_cons, list_prod_app_r, IH.
Qed.

Lemma cross_bind {A B C D : Type} (f : A → B → C) (g : C → list D)
    (rs : list A) (cs : list B) :
  (r ← rs; c ← cs; [f r c]) ≫= g = (r ← rs; c ← cs; g (f r c)).
Proof.
  induction rs as [|r rs IH]; [done|].
  rewrite !bind_cons, bind_app, IH. f_equal.
  clear. induction cs as [|c cs IH]; [done|].
  rewrite !bind_cons, bind_app, IH. f_equal. simpl. apply app_nil_r.
Qed.

Lemma slice_holds_range (locations : list Location) (start stop : nat) :
  stop ≤ length locations →
  holds_range locations start stop (slice locations start stop).
Proof.
  intros Hstop. unfold holds_range, slice. split.
  - rewrite length_take, length_drop. lia.
  - intros a Ha. by rewrite lookup_take_lt, lookup_drop.
Qed.

Lemma elem_of_sub_queries (locations : list Location) (B : nat) (sq : SubQuery) :
  1 ≤ B →
  sq ∈ sub_queries locations B ↔
  ∃ r c, r ∈ chunks (length locations) B ∧ c ∈ chunks (length locations) B
         ∧ sq = cell locations r c.
Proof.
  intros HB. rewrite sub_queries_cross by done.
  rewrite list_elem_of_bind. split.
  - intros (r & (c & ->%list_elem_of_singleton & Hc)%list_elem_of_bind & Hr). eauto.
  - intros (r & c & Hr & Hc & ->). exists r. split; [|done].
    apply list_elem_of_bind. exists c. split; [|done]. by apply list_elem_of_singleton.
Qed.

(** C1: for every list of locations and every batch size [B >= 1], the
    nested loops produce [ceil(N/B) * ceil(N/B)] sub-queries: the chunks
    [(start, end)] tile the index range [0, N) in order, each of them is not
    empty and at most [B] long, all but the last are exactly [B] long, the
    sub-queries are the chunks crossed with themselves, each batch holds the
    locations of its chunk, and the index pairs of all sub-queries are a
    permutation of [0, N) x [0, N), so that every ordered pair is asked for
    exactly once; without locations there is no sub-query. *)
Theorem partition_grid (locations : list Location) (B : nat) :
  1 ≤ B →
  let n := length locations in
  let qs := sub_queries locations B in
  length qs = ceil_div n B * ceil_div n B
  ∧ (chunks n B ≫= (λ c, seq c.1 (c.2 - c.1))) = seq 0 n
  ∧ Forall (λ c, c.1 < c.2 ∧ c.2 ≤ n ∧ c.2 - c.1 ≤ B) (chunks n B)
  ∧ (∀ k c, chunks n B !! k = Some c → S k < length (chunks n B) → c.2 - c.1 = B)
  ∧ qs = (r ← chunks n B; c ← chunks n B; [cell locations r c])
  ∧ Forall (λ sq, holds_range locations (i_start sq) (i_end sq) (batch_origins sq)
                  ∧ holds_range locations (j_start sq) (j_end sq) (batch_destinations sq)) qs
  ∧ qs ≫= index_pairs ≡ₚ list_prod (seq 0 n) (seq 0 n)
  ∧ NoDup (qs ≫= index_pairs)
  ∧ (n = 0 → qs = []).
Proof.
  intros HB n qs.
  assert (qs ≫= index_pairs ≡ₚ list_prod (seq 0 n) (seq 0 n)) as Hperm.
  { subst qs. rewrite sub_queries_cross by done. rewrite cross_bind.
    rewrite <- (chunks_tile B HB n) at 1 2. rewrite <- cross_tiles.
    apply reflexive_eq, list_bind_ext; [|done]. intros r.
    apply list_bind_ext; [|done]. intros c.
    unfold index_pairs. simpl. by rewrite list_prod_bind. }
  split_and!.
  - by apply sub_queries_length.
  - by apply chunks_tile.
  - by apply chunks_bounds.
  - by apply chunks_full.
  - by apply sub_queries_cross.
  - apply Forall_forall. intros sq (r & c & Hr & Hc & ->)%elem_of_sub_queries; [|done].
    pose proof (chunks_bounds B HB n) as Hb.
    rewrite Forall_forall in Hb.
    split; apply slice_holds_range; simpl; [apply (Hb r Hr) | apply (Hb c Hc)].
  - done.
  - rewrite Hperm. apply NoDup_list_prod; apply NoDup_seq.
  - intros Hn. subst qs. unfold sub_queries. fold n. rewrite Hn. done.
Qed.

Lemma partition_grid_witness :
  1 ≤ 2 ∧ length (sub_queries Sample.three 2) = 4
  ∧ sub_queries Sample.three 2 ≫= index_pairs ≡ₚ list_prod (seq 0 3) (seq 0 3).
Proof.
  split; [lia|].
  destruct (partition_grid Sample.three 2) as (Hlen & _ & _ & _ & _ & _ & Hperm & _);
    [lia|].
  split; [exact Hlen | exact Hperm].
Defined.

(** C6: every sub-query that [main] builds has at most [BATCH_SIZE = 10]
    origins and at most [BATCH_SIZE] destinations, hence at most
    [MAX_ELEMENTS = 100] elements. *)
Theorem batch_limits (locations : list Location) :
  Forall (λ sq,
    length (batch_origins sq) ≤ BATCH_SIZE
    ∧ length (batch_destinations sq) ≤ BATCH_SIZE
    ∧ length (batch_origins sq) * length (batch_destinations sq) ≤ MAX_ELEMENTS)
    (sub_queries locations BATCH_SIZE).
Proof.
  assert (1 ≤ BATCH_SIZE) as HB by (unfold BATCH_SIZE; lia).
  apply Forall_forall.
  intros sq (r & c & Hr & Hc & ->)%elem_of_sub_queries; [|done].
  pose proof (chunks_bounds BATCH_SIZE HB (length locations)) as Hb.
  rewrite Forall_forall in Hb.
  destruct (slice_holds_range locations r.1 r.2) as [Hlr _]; [apply (Hb r Hr)|].
  destruct (slice_holds_range locations c.1 c.2) as [Hlc _]; [apply (Hb c Hc)|].
  pose proof (Hb r Hr) as (_ & _ & Hr'). pose proof (Hb c Hc) as (_ & _ & Hc').
  simpl. rewrite Hlr, Hlc. unfold MAX_ELEMENTS, BATCH_SIZE in *.
  split_and!; [lia | lia | nia].
Qed.

(** ** The aggregation of one response *)

Lemma Printing_bind_eq {A B : Type} (m : Printing A) (f : A → Printing B) :
  m ≫= f =
  match m with
  | (Return a, out) => ((f a).1, out ++ (f a).2)
  | (Raised e, out) => (Raised e, out)
  end.
Proof.
  unfold mbind, Printing_bind. destruct m as [[a|e] out]; [|done].
  by destruct (f a).
Qed.

Lemma foldM_cons {A B : Type} (f : B → A → Printing B) (x : A) (l : list A) (b : B) :
  foldM f (x :: l) b = f b x ≫= foldM f l.
Proof. done. Qed.

Lemma store_app (routes : gmap string RouteInfo) (ws1 ws2 : list (string * RouteInfo)) :
  store routes (ws1 ++ ws2) = store (store routes ws1) ws2.
Proof. apply foldl_app. Qed.

Lemma writes_app (ps1 ps2 : list (Location * Location * Element)) :
  writes (ps1 ++ ps2) = writes ps1 ++ writes ps2.
Proof. apply omap_app. Qed.

Lemma failure_records_app (ps1 ps2 : list (Location * Location * Element)) :
  failure_records (ps1 ++ ps2) = failure_records ps1 ++ failure_records ps2.
Proof. apply omap_app. Qed.

(** What one turn of the inner loop does. *)
Lemma process_element_unfold (o : Location) (dests : list Location)
    (routes : gmap string RouteInfo) (j : nat) (el : Element) :
  process_element o dests routes (j, el) =
  match dests !! j with
  | None => (Raised IndexError, [])
  | Some d =>
      if decide (loc_id o = loc_id d) then (Return routes, [])
      else if decide (el_status el = Some "OK") then
        match el_distance el with
        | None => (Raised (KeyError "distance"), [])
        | Some distance =>
        match value distance with
        | None => (Raised (KeyError "value"), [])
        | Some distance_m =>
        match el_duration el with
        | None => (Raised (KeyError "duration"), [])
        | Some duration =>
        match value duration with
        | None => (Raised (KeyError "value"), [])
        | Some duration_s =>
        match PyFloat.int_truediv distance_m 1000 with
        | None => (Raised OverflowError, [])
        | Some km =>
            (Return (<[cache_key o d :=
                         {| distance_km := PyFloat.round1 km;
                            duration_seconds := duration_s |}]> routes), [])
        end end end end end
      else (Return routes, [warning_line o d el])
  end.
Proof.
  unfold process_element, getitem_list, getitem, truediv.
  destruct (dests !! j) as [d|]; [|done]. simpl.
  case_decide; [done|]. case_decide; [|done].
  destruct (el_distance el) as [[[m|]]|]; try done. simpl.
  destruct (el_duration el) as [[[s|]]|]; try done. simpl.
  by destruct (PyFloat.int_truediv m 1000).
Qed.

Lemma entry_of_unfold (el : Element) :
  entry_of el =
  match el_distance el with
  | None => None
  | Some distance =>
  match value distance with
  | None => None
  | Some distance_m =>
  match el_duration el with
  | None => None
  | Some duration =>
  match value duration with
  | None => None
  | Some duration_s =>
  match PyFloat.int_truediv distance_m 1000 with
  | None => None
  | Some km => Some {| distance_km := PyFloat.round1 km;
                       duration_seconds := duration_s |}
  end end end end end.
Proof.
  unfold entry_of. by destruct (el_distance el) as [[[m|]]|].
Qed.

(** A turn that returns has done the write or printed the failure record of
    its position, and nothing else. *)
Lemma process_element_returns (o : Location) (dests : list Location)
    (routes routes' : gmap string RouteInfo) (j : nat) (el : Element)
    (out : list string) :
  process_element o dests routes (j, el) = (Return routes', out) ↔
  ∃ d, dests !! j = Some d
       ∧ (loc_id o ≠ loc_id d → el_status el = Some "OK" → is_Some (entry_of el))
       ∧ routes' = store routes (writes [(o, d, el)])
       ∧ out = failure_records [(o, d, el)].
Proof.
  rewrite process_element_unfold. unfold writes, failure_records. simpl.
  rewrite entry_of_unfold.
  destruct (dests !! j) as [d|]; [|naive_solver].
  split.
  - intros H. exists d. split; [done|]. revert H.
    repeat case_decide; try naive_solver.
    repeat case_match; naive_solver.
  - intros (? & [= <-] & Hr & -> & ->).
    repeat case_decide; try naive_solver.
    destruct Hr as [e He]; [naive_solver..|].
    revert He. repeat case_match; naive_solver.
Qed.

Lemma row_positions_cons (o d : Location) (dests : list Location) (k : nat)
    (el : Element) (els : list Element) :
  dests !! k = Some d →
  row_positions o dests k (el :: els) = (o, d, el) :: row_positions o dests (S k) els.
Proof. intros Hd. unfold row_positions. simpl. by rewrite Hd. Qed.

Lemma row_ok_cons (o : Location) (dests : list Location) (k : nat)
    (el : Element) (els : list Element) :
  row_ok o dests k (el :: els) ↔
  (∃ d, dests !! k = Some d
        ∧ (loc_id o ≠ loc_id d → el_status el = Some "OK" → is_Some (entry_of el)))
  ∧ row_ok o dests (S k) els.
Proof. unfold row_ok. simpl. by rewrite Forall_cons. Qed.

Lemma writes_cons (p : Location * Location * Element)
    (ps : list (Location * Location * Element)) :
  writes (p :: ps) = writes [p] ++ writes ps.
Proof. by rewrite <- writes_app. Qed.

Lemma failure_records_cons (p : Location * Location * Element)
    (ps : list (Location * Location * Element)) :
  failure_records (p :: ps) = failure_records [p] ++ failure_records ps.
Proof. by rewrite <- failure_records_app. Qed.

Lemma process_elements_returns (o : Location) (dests : list Location)
    (els : list Element) (k : nat) (routes routes' : gmap string RouteInfo)
    (out : list string) :
  foldM (process_element o dests) (enumerate_from k els) routes = (Return routes', out) ↔
  row_ok o dests k els
  ∧ routes' = store routes (writes (row_positions o dests k els))
  ∧ out = failure_records (row_positions o dests k els).
Proof.
  revert k routes routes' out.
  induction els as [|el els IH]; intros k routes routes' out.
  { unfold row_ok. simpl. unfold mret, Printing_ret.
    split; [intros [= <- <-]; by split_and! | intros (_ & -> & ->); done]. }
  change (enumerate_from k (el :: els)) with ((k, el) :: enumerate_from (S k) els).
  rewrite foldM_cons, Printing_bind_eq, row_ok_cons.
  destruct (process_element o dests routes (k, el)) as [[r1|e] out1] eqn:Hstep.
  - apply process_element_returns in Hstep as (d & Hd & Hr & Hr1 & Hout1).
    rewrite (row_positions_cons o d) by done.
    rewrite writes_cons, failure_records_cons, store_app. subst r1 out1.
    destruct (foldM (process_element o dests) (enumerate_from (S k) els)
                (store routes (writes [(o, d, el)]))) as [r2 out2] eqn:Hrest.
    simpl fst; simpl snd. split.
    + intros [= -> <-]. apply IH in Hrest as (Hok & -> & ->). eauto 10.
    + intros ((_ & Hok) & -> & ->).
      assert (foldM (process_element o dests) (enumerate_from (S k) els)
                (store routes (writes [(o, d, el)])) =
              (Return (store (store routes (writes [(o, d, el)]))
                         (writes (row_positions o dests (S k) els))),
               failure_records (row_positions o dests (S k) els))) as Heq
        by by apply IH.
      rewrite Hrest in Heq. by injection Heq as -> ->.
  - split; [done|]. intros (((d' & Hd' & Hr') & _) & _).
    assert (∃ r1 out1, process_element o dests routes (k, el) = (Return r1, out1))
      as (? & ? & ?); [|congruence].
    eexists _, _. apply process_element_returns. eauto.
Qed.

(** What one turn of the outer loop does when it returns. *)
Lemma process_row_returns (origins dests : list Location)
    (routes routes' : gmap string RouteInfo) (i : nat) (row : Row)
    (out : list string) :
  process_row origins dests routes (i, row) = (Return routes', out) ↔
  ∃ o, origins !! i = Some o
       ∧ row_ok o dests 0 (elements_of row)
       ∧ routes' = store routes (writes (row_positions o dests 0 (elements_of row)))
       ∧ out = failure_records (row_positions o dests 0 (elements_of row)).
Proof.
  unfold process_row, getitem_list. rewrite Printing_bind_eq.
  destruct (origins !! i) as [o|]; simpl; [|naive_solver].
  rewrite <- surjective_pairing. fold (elements_of row). unfold enumerate.
  rewrite process_elements_returns. naive_solver.
Qed.

Lemma positions_from_cons (origins dests : list Location) (k : nat)
    (row : Row) (rows : list Row) (o : Location) :
  origins !! k = Some o →
  positions_from origins dests k (row :: rows) =
  row_positions o dests 0 (elements_of row) ++ positions_from origins dests (S k) rows.
Proof.
  intros Ho. unfold positions_from. simpl enumerate_from.
  rewrite bind_cons. simpl. by rewrite Ho.
Qed.

Lemma rows_ok_cons (origins dests : list Location) (k : nat)
    (row : Row) (rows : list Row) :
  rows_ok origins dests k (row :: rows) ↔
  (∃ o, origins !! k = Some o ∧ row_ok o dests 0 (elements_of row))
  ∧ rows_ok origins dests (S k) rows.
Proof. unfold rows_ok. simpl. by rewrite Forall_cons. Qed.

Lemma process_rows_returns (origins dests : list Location)
    (rows : list Row) (k : nat) (routes routes' : gmap string RouteInfo)
    (out : list string) :
  foldM (process_row origins dests) (enumerate_from k rows) routes = (Return routes', out) ↔
  rows_ok origins dests k rows
  ∧ routes' = store routes (writes (positions_from origins dests k rows))
  ∧ out = failure_records (positions_from origins dests k rows).
Proof.
  revert k routes routes' out.
  induction rows as [|row rows IH]; intros k routes routes' out.
  { unfold rows_ok. simpl. unfold mret, Printing_ret.
    split; [intros [= <- <-]; by split_and! | intros (_ & -> & ->); done]. }
  change (enumerate_from k (row :: rows)) with ((k, row) :: enumerate_from (S k) rows).
  rewrite foldM_cons, Printing_bind_eq, rows_ok_cons.
  destruct (process_row origins dests routes (k, row)) as [[r1|e] out1] eqn:Hstep.
  - apply process_row_returns in Hstep as (o & Ho & Hrow & Hr1 & Hout1).
    rewrite (positions_from_cons _ _ _ _ _ o) by done.
    rewrite writes_app, failure_records_app, store_app. subst r1 out1.
    destruct (foldM (process_row origins dests) (enumerate_from (S k) rows)
                (store routes (writes (row_positions o dests 0 (elements_of row)))))
      as [r2 out2] eqn:Hrest.
    simpl fst; simpl snd. split.
    + intros [= -> <-]. apply IH in Hrest as (Hok & -> & ->). eauto 10.
    + intros ((_ & Hok) & -> & ->).
      assert (foldM (process_row origins dests) (enumerate_from (S k) rows)
                (store routes (writes (row_positions o dests 0 (elements_of row)))) =
              (Return (store (store routes (writes (row_positions o dests 0 (elements_of row))))
                         (writes (positions_from origins dests (S k) rows))),
               failure_records (positions_from origins dests (S k) rows))) as Heq
        by by apply IH.
      rewrite Hrest in Heq. by injection Heq as -> ->.
  - split; [done|]. intros (((o & Ho & Hrow) & _) & _).
    assert (∃ r1 out1, process_row origins dests routes (k, row) = (Return r1, out1))
      as (? & ? & ?); [|congruence].
    eexists _, _. apply process_row_returns. eauto.
Qed.

(** The response is aggregated to its end exactly when every row has its
    origin and can be read; the routes are then the writes of the positions
    and the output their failure records. *)
Lemma process_matrix_response_returns (data : MatrixData)
    (origins dests : list Location) (routes : gmap string RouteInfo)
    (out : list string) :
  process_matrix_response data origins dests = (Return routes, out) ↔
  rows_ok origins dests 0 (rows_of data)
  ∧ routes = store ∅ (writes (positions data origins dests))
  ∧ out = failure_records (positions data origins dests).
Proof. apply process_rows_returns. Qed.

(** *** Where the positions come from *)

Lemma elem_of_enumerate_from {A : Type} (l : list A) (k i : nat) (x : A) :
  (i, x) ∈ enumerate_from k l ↔ ∃ j, i = k + j ∧ l !! j = Some x.
Proof.
  revert k. induction l as [|y l IH]; intros k; simpl.
  - rewrite elem_of_nil. naive_solver.
  - rewrite elem_of_cons, IH. split.
    + intros [[= -> ->]|(j & -> & Hj)].
      * exists 0. split; [lia|done].
      * exists (S j). split; [lia|done].
    + intros ([|j] & -> & Hj).
      * left. simplify_eq/=. f_equal. lia.
      * right. exists j. split; [lia|done].
Qed.

Lemma elem_of_row_positions (o o' d : Location) (dests : list Location)
    (k : nat) (els : list Element) (el : Element) :
  (o', d, el) ∈ row_positions o dests k els ↔
  o' = o ∧ ∃ j, els !! j = Some el ∧ dests !! (k + j) = Some d.
Proof.
  unfold row_positions. rewrite list_elem_of_omap. split.
  - intros ([i el'] & (j & -> & Hj)%elem_of_enumerate_from & Hd). simpl in Hd.
    destruct (dests !! (k + j)) as [d'|] eqn:Hd'; simplify_eq/=. eauto.
  - intros (-> & j & Hj & Hd). exists (k + j, el). split.
    + apply elem_of_enumerate_from. eauto.
    + simpl. by rewrite Hd.
Qed.

Lemma elem_of_positions_from (origins dests : list Location) (k : nat)
    (rows : list Row) (o d : Location) (el : Element) :
  (o, d, el) ∈ positions_from origins dests k rows ↔
  ∃ i j row, rows !! i = Some row ∧ elements_of row !! j = Some el
             ∧ origins !! (k + i) = Some o ∧ dests !! j = Some d.
Proof.
  unfold positions_from. rewrite list_elem_of_bind. split.
  - intros ([i' row] & Hin & (i & -> & Hi)%elem_of_enumerate_from). simpl in Hin.
    destruct (origins !! (k + i)) as [o'|] eqn:Ho; [|by apply elem_of_nil in Hin].
    apply elem_of_row_positions in Hin as (-> & j & Hj & Hd). eauto 10.
  - intros (i & j & row & Hi & Hj & Ho & Hd). exists (k + i, row). split.
    + simpl. rewrite Ho. apply elem_of_row_positions. eauto.
    + apply elem_of_enumerate_from. eauto.
Qed.

(** A position is a pair at matching row and column indices. *)
Lemma elem_of_positions (data : MatrixData) (origins dests : list Location)
    (o d : Location) (el : Element) :
  (o, d, el) ∈ positions data origins dests ↔
  ∃ i j row, rows_of data !! i = Some row ∧ elements_of row !! j = Some el
             ∧ origins !! i = Some o ∧ dests !! j = Some d.
Proof. apply elem_of_positions_from. Qed.

Lemma elem_of_writes (ps : list (Location * Location * Element))
    (key : string) (e : RouteInfo) :
  (key, e) ∈ writes ps ↔
  ∃ o d el, (o, d, el) ∈ ps ∧ loc_id o ≠ loc_id d ∧ el_status el = Some "OK"
            ∧ entry_of el = Some e ∧ key = cache_key o d.
Proof.
  unfold writes. rewrite list_elem_of_omap. split.
  - intros ([[o d] el] & Hin & Hw). case_decide as Hc; [|done].
    destruct (entry_of el) as [e'|] eqn:He; simplify_eq/=.
    destruct Hc. eauto 10.
  - intros (o & d & el & Hin & Hne & Hok & He & ->). exists (o, d, el).
    split; [done|]. rewrite decide_True by done. by rewrite He.
Qed.

Lemma elem_of_failure_records (ps : list (Location * Location * Element))
    (line : string) :
  line ∈ failure_records ps ↔
  ∃ o d el, (o, d, el) ∈ ps ∧ loc_id o ≠ loc_id d ∧ el_status el ≠ Some "OK"
            ∧ line = warning_line o d el.
Proof.
  unfold failure_records. rewrite list_elem_of_omap. split.
  - intros ([[o d] el] & Hin & Hw). case_decide as Hc; [|done].
    simplify_eq/=. destruct Hc. eauto 10.
  - intros (o & d & el & Hin & Hne & Hok & ->). exists (o, d, el).
    split; [done|]. by rewrite decide_True.
Qed.

(** *** What a sequence of writes leaves in the mapping *)

Lemma store_cons (routes : gmap string RouteInfo) (kv : string * RouteInfo)
    (ws : list (string * RouteInfo)) :
  store routes (kv :: ws) = store (<[kv.1 := kv.2]> routes) ws.
Proof. done. Qed.

Lemma store_snoc (routes : gmap string RouteInfo) (kv : string * RouteInfo)
    (ws : list (string * RouteInfo)) :
  store routes (ws ++ [kv]) = <[kv.1 := kv.2]> (store routes ws).
Proof. by rewrite store_app. Qed.

Lemma lookup_store_Some (routes : gmap string RouteInfo)
    (ws : list (string * RouteInfo)) (key : string) (e : RouteInfo) :
  store routes ws !! key = Some e → (key, e) ∈ ws ∨ routes !! key = Some e.
Proof.
  induction ws as [|[key' e'] ws IH] using rev_ind; [by right|].
  rewrite store_snoc. simpl. rewrite lookup_insert.
  case_decide as Hk.
  - intros [= <-]. subst key'. left. apply elem_of_app. right. by apply list_elem_of_singleton.
  - intros [Hin|Hr]%IH; [left|by right]. apply elem_of_app. by left.
Qed.

Lemma dom_store (routes : gmap string RouteInfo) (ws : list (string * RouteInfo)) :
  dom (store routes ws) = list_to_set ws.*1 ∪ dom routes.
Proof.
  revert routes. induction ws as [|[key e] ws IH]; intros routes.
  - simpl. set_solver.
  - rewrite store_cons, IH, dom_insert_L. simpl. set_solver.
Qed.


(** Without a second write to the same key, the value written stays. *)
Lemma lookup_store_NoDup (routes : gmap string RouteInfo)
    (ws : list (string * RouteInfo)) (key : string) (e : RouteInfo) :
  NoDup ws.*1 → (key, e) ∈ ws → store routes ws !! key = Some e.
Proof.
  revert routes. induction ws as [|[key' e'] ws IH]; intros routes Hnd Hin.
  - by apply elem_of_nil in Hin.
  - rewrite fmap_cons in Hnd. apply NoDup_cons in Hnd as [Hnotin Hnd].
    rewrite store_cons. simpl in *.
    apply elem_of_cons in Hin as [[= -> ->]|Hin]; [|by apply IH].
    destruct (store (<[key':=e']> routes) ws !! key') as [e''|] eqn:Hl.
    + apply lookup_store_Some in Hl as [Hin|Hl].
      * destruct Hnotin. apply list_elem_of_fmap. by exists (key', e'').
      * by rewrite lookup_insert_eq in Hl.
    + apply not_elem_of_dom in Hl. rewrite dom_store, dom_insert_L in Hl. set_solver.
Qed.

Lemma entry_of_Some (el : Element) (e : RouteInfo) :
  entry_of el = Some e ↔
  ∃ distance duration distance_m km,
    el_distance el = Some distance ∧ value distance = Some distance_m
    ∧ el_duration el = Some duration ∧ value duration = Some (duration_seconds e)
    ∧ PyFloat.int_truediv distance_m 1000 = Some km
    ∧ distance_km e = PyFloat.round1 km.
Proof.
  rewrite entry_of_unfold. split.
  - intros H. repeat case_match; try done. simplify_eq/=. eauto 10.
  - intros (distance & duration & m & km & -> & -> & -> & -> & -> & Hkm).
    destruct e. simpl in *. by subst.
Qed.



(** *** The numbers of an entry *)

(** [div_half_even p q] is an integer nearest to [p / q], the even one of
    the two when [p / q] lies half way. *)
Lemma div_half_even_nearest (p q : Z) :
  (0 < q)%Z →
  let k := PyFloat.div_half_even p q in
  (Z.abs (2 * (p - k * q)) ≤ q)%Z
  ∧ (Z.abs (2 * (p - k * q)) = q → Z.even k = true)%Z.
Proof.
  intros Hq k. subst k. unfold PyFloat.div_half_even.
  pose proof (Z.div_mod p q ltac:(lia)) as Hdm.
  pose proof (Z.mod_pos_bound p q Hq) as Hb.
  destruct (Z.compare_spec (2 * (p mod q)) q) as [Heq|Hlt|Hgt].
  - destruct (Z.even (p / q)) eqn:He.
    + split; [nia|done].
    + split; [nia|]. intros _. rewrite Z.even_add, He. done.
  - split; [nia|]. intros Habs. nia.
  - split; [nia|]. intros Habs. nia.
Qed.

(** [tenths m e] is the number of tenths nearest to the exact value
    [m * 2^e] of a double: ten times that value when it is an integer, and
    else the integer nearest to the quotient of [10 * m] by [2^(-e)], the
    even one at a tie. *)
Lemma tenths_nearest (m : positive) (e : Z) :
  let t := PyFloat.tenths m e in
  ((0 ≤ e)%Z → t = (10 * Z.pos m * 2 ^ e)%Z)
  ∧ ((e < 0)%Z →
     (Z.abs (2 * (10 * Z.pos m - t * 2 ^ (- e))) ≤ 2 ^ (- e))%Z
     ∧ (Z.abs (2 * (10 * Z.pos m - t * 2 ^ (- e))) = 2 ^ (- e) → Z.even t = true)%Z).
Proof.
  intros t. subst t. unfold PyFloat.tenths. split; intros He.
  - by rewrite (proj2 (Z.leb_le 0 e) He).
  - rewrite (proj2 (Z.leb_gt 0 e) He).
    apply div_half_even_nearest. apply Z.pow_pos_nonneg; lia.
Qed.

(** The values of [round(distance_m / 1000, 1)] as CPython 3.11 gives them
    ([float.hex] of the result, written as mantissa and exponent): 1.1, 30.4
    and 1.2; 0.1 for 0.05 and for 0.15, whose doubles lie above and below
    the decimal; 0.2 for the tie at 0.25; 0.0 and -1.1; 12345.7; and a
    quotient above 2^53. *)
Lemma round_truediv_values :
  PyFloat.round1 <$> PyFloat.int_truediv 1150 1000
    = Some (S754_finite false 4953959590107546 (-52))
  ∧ PyFloat.round1 <$> PyFloat.int_truediv 30450 1000
    = Some (S754_finite false 8556839292003942 (-48))
  ∧ PyFloat.round1 <$> PyFloat.int_truediv 1250 1000
    = Some (S754_finite false 5404319552844595 (-52))
  ∧ PyFloat.round1 <$> PyFloat.int_truediv 50 1000
    = Some (S754_finite false 7205759403792794 (-56))
  ∧ PyFloat.round1 <$> PyFloat.int_truediv 150 1000
    = Some (S754_finite false 7205759403792794 (-56))
  ∧ PyFloat.round1 <$> PyFloat.int_truediv 250 1000
    = Some (S754_finite false 7205759403792794 (-55))
  ∧ PyFloat.round1 <$> PyFloat.int_truediv 49 1000 = Some (S754_zero false)
  ∧ PyFloat.round1 <$> PyFloat.int_truediv 0 1000 = Some (S754_zero false)
  ∧ PyFloat.round1 <$> PyFloat.int_truediv (-1150) 1000
    = Some (S754_finite true 4953959590107546 (-52))
  ∧ PyFloat.round1 <$> PyFloat.int_truediv 12345678 1000
    = Some (S754_finite false 6787120351517082 (-39))
  ∧ PyFloat.round1 <$> PyFloat.int_truediv 100000000000000050 1000
    = Some (S754_finite false 6400000000000000 (-6))
  ∧ PyFloat.int_truediv (10 ^ 312) 1000 = None.
Proof. vm_compute. repeat split. Qed.




(** *** Self-pairs *)

Lemma process_element_self (o d : Location) (dests : list Location)
    (routes : gmap string RouteInfo) (j : nat) (el : Element) :
  dests !! j = Some d → loc_id o = loc_id d →
  process_element o dests routes (j, el) = (Return routes, []).
Proof.
  intros Hd Hid. rewrite process_element_unfold, Hd. by rewrite decide_True.
Qed.

Lemma process_element_mask (o : Location) (dests : list Location)
    (routes : gmap string RouteInfo) (k : nat) (el : Element) :
  process_element o dests routes
    (k, match dests !! k with
        | Some d => if decide (loc_id o = loc_id d) then blank else el
        | None => el
        end)
  = process_element o dests routes (k, el).
Proof.
  destruct (dests !! k) as [d|] eqn:Hd; [|done].
  case_decide; [|done]. by rewrite !(process_element_self o d).
Qed.

Lemma process_elements_mask (o : Location) (dests : list Location)
    (els : list Element) (k : nat) (routes : gmap string RouteInfo) :
  foldM (process_element o dests)
    (enumerate_from k (mask_elements (Some o) dests k els)) routes
  = foldM (process_element o dests) (enumerate_from k els) routes.
Proof.
  revert k routes. induction els as [|el els IH]; intros k routes; [done|].
  simpl mask_elements. simpl enumerate_from.
  rewrite !foldM_cons, process_element_mask, !Printing_bind_eq.
  destruct (process_element o dests routes (k, el)) as [[r|e] out]; [|done].
  by rewrite IH.
Qed.

Lemma process_rows_mask (origins dests : list Location) (rows : list Row)
    (k : nat) (routes : gmap string RouteInfo) :
  foldM (process_row origins dests)
    (enumerate_from k (mask_rows origins dests k rows)) routes
  = foldM (process_row origins dests) (enumerate_from k rows) routes.
Proof.
  revert k routes. induction rows as [|row rows IH]; intros k routes; [done|].
  simpl mask_rows. simpl enumerate_from. rewrite !foldM_cons.
  assert (process_row origins dests routes
            (k, {| row_elements :=
                     mask_elements (origins !! k) dests 0 <$> row_elements row |})
          = process_row origins dests routes (k, row)) as ->.
  { unfold process_row, getitem_list.
    destruct (origins !! k) as [o|]; [|done]. simpl.
    unfold mbind, Printing_bind, enumerate. simpl.
    destruct (row_elements row) as [els|]; [|done]. simpl.
    by rewrite process_elements_mask. }
  rewrite !Printing_bind_eq.
  destruct (process_row origins dests routes (k, row)) as [[r|e] out]; [|done].
  by rewrite IH.
Qed.

(** C5: the routes of an aggregated response only have keys of pairs of
    different ids, and its output only failure records of such pairs (no
    more and no fewer than the elements that are not OK); a turn of the loop
    on a self-pair returns the routes unchanged and prints nothing, whatever
    the element; and what the aggregation returns, prints or raises does not
    depend on the elements of the self-pairs. *)
Theorem self_pairs_skipped (data : MatrixData) (origins dests : list Location) :
  (∀ routes out,
     process_matrix_response data origins dests = (Return routes, out) →
     (∀ key, is_Some (routes !! key) →
        ∃ o d el, at_position data origins dests o d el
                  ∧ loc_id o ≠ loc_id d ∧ key = cache_key o d)
     ∧ out = failure_records (positions data origins dests)
     ∧ (∀ line, line ∈ out →
          ∃ o d el, at_position data origins dests o d el
                    ∧ loc_id o ≠ loc_id d ∧ el_status el ≠ Some "OK"
                    ∧ line = warning_line o d el))
  ∧ (∀ o d j el routes,
       dests !! j = Some d → loc_id o = loc_id d →
       process_element o dests routes (j, el) = (Return routes, []))
  ∧ process_matrix_response (mask origins dests data) origins dests
    = process_matrix_response data origins dests.
Proof.
  split_and!.
  - intros routes out (Hok & -> & ->)%process_matrix_response_returns. split_and!.
    + intros key [e [Hin|Hempty]%lookup_store_Some];
        [|by rewrite lookup_empty in Hempty].
      apply elem_of_writes in Hin as (o & d & el & Hpos & Hne & _ & _ & ->).
      apply elem_of_positions in Hpos. eauto 10.
    + done.
    + intros line (o & d & el & Hpos & Hne & Hst & ->)%elem_of_failure_records.
      apply elem_of_positions in Hpos. eauto 10.
  - intros o d j el routes. apply process_element_self.
  - unfold process_matrix_response, mask. simpl. unfold enumerate.
    destruct (data_rows data) as [rows|]; [|done]. simpl.
    apply process_rows_mask.
Qed.

Lemma self_pairs_skipped_witness :
  let ps := positions Sample.response Sample.three Sample.three in
  process_matrix_response Sample.response Sample.three Sample.three
    = (Return (store ∅ (writes ps)), failure_records ps)
  ∧ (∀ key, is_Some (store ∅ (writes ps) !! key) →
       ∃ o d el, at_position Sample.response Sample.three Sample.three o d el
                 ∧ loc_id o ≠ loc_id d ∧ key = cache_key o d)
  ∧ process_element (Sample.place "a") Sample.three ∅ (0, Sample.failed_element "NOT_FOUND")
    = (Return ∅, []).
Proof.
  intros ps.
  assert (process_matrix_response Sample.response Sample.three Sample.three
          = (Return (store ∅ (writes ps)), failure_records ps)) as Hrun
    by (vm_compute; reflexivity).
  destruct (self_pairs_skipped Sample.response Sample.three Sample.three)
    as (Hkeys & Hself & _).
  split_and!.
  - exact Hrun.
  - exact (proj1 (Hkeys _ _ Hrun)).
  - apply (Hself _ (Sample.place "a")); reflexivity.
Defined.

(** *** Indexing *)

Lemma process_element_IndexError (o : Location) (dests : list Location)
    (routes : gmap string RouteInfo) (k : nat) (el : Element) :
  (process_element o dests routes (k, el)).1 = Raised IndexError ↔ dests !! k = None.
Proof.
  rewrite process_element_unfold.
  destruct (dests !! k) as [d|]; [|done].
  split; [|done]. repeat case_decide; try done. by repeat case_match.
Qed.

Lemma process_element_readable (o : Location) (dests : list Location)
    (routes : gmap string RouteInfo) (k : nat) (el : Element) :
  readable el → is_Some (dests !! k) →
  ∃ routes', (process_element o dests routes (k, el)).1 = Return routes'.
Proof.
  intros Hel [d Hd]. eexists.
  erewrite (proj2 (process_element_returns o dests routes _ k el _)); [done|].
  exists d. split_and!; [done| |done..]. intros _. apply Hel.
Qed.

Lemma process_elements_IndexError (o : Location) (dests : list Location)
    (els : list Element) (k : nat) (routes : gmap string RouteInfo) :
  (foldM (process_element o dests) (enumerate_from k els) routes).1 = Raised IndexError →
  length dests < k + length els.
Proof.
  revert k routes. induction els as [|el els IH]; intros k routes; [done|].
  simpl enumerate_from. rewrite foldM_cons, Printing_bind_eq.
  pose proof (process_element_IndexError o dests routes k el) as Hstep.
  destruct (process_element o dests routes (k, el)) as [[r1|e] out1]; simpl in *.
  - intros Hrest%IH. lia.
  - intros Heq. apply Hstep in Heq. apply lookup_ge_None in Heq. lia.
Qed.

Lemma process_elements_readable (o : Location) (dests : list Location)
    (els : list Element) (k : nat) (routes : gmap string RouteInfo) :
  Forall readable els →
  (∃ routes', (foldM (process_element o dests) (enumerate_from k els) routes).1
              = Return routes')
  ∨ (foldM (process_element o dests) (enumerate_from k els) routes).1
    = Raised IndexError.
Proof.
  revert k routes. induction els as [|el els IH]; intros k routes Hels.
  { left. by eexists. }
  apply Forall_cons in Hels as [Hel Hels].
  simpl enumerate_from. rewrite foldM_cons, Printing_bind_eq.
  destruct (dests !! k) as [d|] eqn:Hd.
  - destruct (process_element_readable o dests routes k el Hel) as [r1 Hr1]; [by eexists|].
    destruct (process_element o dests routes (k, el)) as [r out1]. simpl in Hr1.
    subst r. simpl. by apply IH.
  - apply (process_element_IndexError o dests routes k el) in Hd.
    destruct (process_element o dests routes (k, el)) as [r out1]. simpl in Hd.
    subst r. by right.
Qed.

Lemma process_row_IndexError (origins dests : list Location)
    (routes : gmap string RouteInfo) (i : nat) (row : Row) :
  (process_row origins dests routes (i, row)).1 = Raised IndexError →
  origins !! i = None ∨ length dests < length (elements_of row).
Proof.
  unfold process_row, getitem_list. rewrite Printing_bind_eq.
  destruct (origins !! i) as [o|]; [|by left]. simpl.
  intros H%process_elements_IndexError. by right.
Qed.

Lemma process_row_readable (origins dests : list Location)
    (routes : gmap string RouteInfo) (i : nat) (row : Row) :
  Forall readable (elements_of row) →
  (∃ routes', (process_row origins dests routes (i, row)).1 = Return routes')
  ∨ (process_row origins dests routes (i, row)).1 = Raised IndexError.
Proof.
  intros Hrow. unfold process_row, getitem_list. rewrite Printing_bind_eq.
  destruct (origins !! i) as [o|]; [|by right]. simpl.
  by apply process_elements_readable.
Qed.

Lemma process_rows_IndexError (origins dests : list Location)
    (rows : list Row) (k : nat) (routes : gmap string RouteInfo) :
  (foldM (process_row origins dests) (enumerate_from k rows) routes).1 = Raised IndexError →
  length origins < k + length rows
  ∨ Exists (λ row, length dests < length (elements_of row)) rows.
Proof.
  revert k routes. induction rows as [|row rows IH]; intros k routes; [done|].
  simpl enumerate_from. rewrite foldM_cons, Printing_bind_eq.
  pose proof (process_row_IndexError origins dests routes k row) as Hstep.
  destruct (process_row origins dests routes (k, row)) as [[r1|e] out1]; simpl in *.
  - intros [Hlen|Hex]%IH; [left; lia | right; by apply Exists_cons_tl].
  - intros Heq. destruct (Hstep Heq) as [Ho|Hrow].
    + left. apply lookup_ge_None in Ho. lia.
    + right. by apply Exists_cons_hd.
Qed.

Lemma process_rows_readable (origins dests : list Location)
    (rows : list Row) (k : nat) (routes : gmap string RouteInfo) :
  Forall (λ row, Forall readable (elements_of row)) rows →
  (∃ routes', (foldM (process_row origins dests) (enumerate_from k rows) routes).1
              = Return routes')
  ∨ (foldM (process_row origins dests) (enumerate_from k rows) routes).1
    = Raised IndexError.
Proof.
  revert k routes. induction rows as [|row rows IH]; intros k routes Hrows.
  { left. by eexists. }
  apply Forall_cons in Hrows as [Hrow Hrows].
  simpl enumerate_from. rewrite foldM_cons, Printing_bind_eq.
  destruct (process_row_readable origins dests routes k row Hrow) as [[r1 Hr1]|Hr1];
    destruct (process_row origins dests routes (k, row)) as [r out1];
    simpl in Hr1; subst r; [by apply IH | by right].
Qed.

Lemma row_ok_length (o : Location) (dests : list Location) (els : list Element)
    (k : nat) :
  row_ok o dests k els → els = [] ∨ k + length els ≤ length dests.
Proof.
  revert k. induction els as [|el els IH]; intros k; [by left|].
  intros [(d & Hd%lookup_lt_Some & _) Hrest]%row_ok_cons. right.
  destruct (IH _ Hrest) as [->|]; simpl; lia.
Qed.

Lemma rows_ok_fits (origins dests : list Location) (rows : list Row) (k : nat) :
  rows_ok origins dests k rows →
  (rows = [] ∨ k + length rows ≤ length origins)
  ∧ Forall (λ row, length (elements_of row) ≤ length dests) rows.
Proof.
  revert k. induction rows as [|row rows IH]; intros k; [by split; [left|]|].
  intros [(o & Ho%lookup_lt_Some & Hrow) Hrest]%rows_ok_cons.
  destruct (IH _ Hrest) as [Hlen Hall]. split.
  - right. destruct Hlen as [->|]; simpl; lia.
  - apply Forall_cons. split; [|done].
    destruct (row_ok_length _ _ _ _ Hrow) as [->|]; simpl; lia.
Qed.

(** A response that fits and can be read is aggregated to its end. *)
Lemma fits_readable_returns (data : MatrixData) (origins dests : list Location) :
  fits data origins dests → all_readable data →
  ∃ routes, (process_matrix_response data origins dests).1 = Return routes.
Proof.
  intros [Hlen Hrows] Hread.
  destruct (process_rows_readable origins dests (rows_of data) 0 ∅ Hread) as [?|Hbad];
    [done|].
  apply process_rows_IndexError in Hbad as [Hbad|Hbad].
  - simpl in Hbad. lia.
  - apply Exists_exists in Hbad as (row & Hin & Hrow).
    rewrite Forall_forall in Hrows. specialize (Hrows row Hin). lia.
Qed.

(** C10: rows are paired with [origins[i]] and elements with
    [destinations[j]].  A response that fits the batches is aggregated
    without [IndexError], and to its end when its elements can be read; a
    response that does not fit is never aggregated to its end: an exception
    is raised, and it is [IndexError] when the elements can be read. *)
Theorem indexing_in_range (data : MatrixData) (origins dests : list Location) :
  let r := (process_matrix_response data origins dests).1 in
  (fits data origins dests → r ≠ Raised IndexError)
  ∧ (fits data origins dests → all_readable data → ∃ routes, r = Return routes)
  ∧ (¬ fits data origins dests → ∃ e, r = Raised e)
  ∧ (¬ fits data origins dests → all_readable data → r = Raised IndexError).
Proof.
  intros r.
  assert (fits data origins dests → r ≠ Raised IndexError) as Hsafe.
  { intros [Hlen Hrows] [Hbad|Hbad]%process_rows_IndexError.
    - simpl in Hbad. fold (rows_of data) in Hbad. lia.
    - fold (rows_of data) in Hbad. apply Exists_exists in Hbad as (row & Hin & Hrow).
      rewrite Forall_forall in Hrows. specialize (Hrows row Hin). lia. }
  assert (¬ fits data origins dests → ∃ e, r = Raised e) as Hraise.
  { intros Hfits. destruct r as [routes|e] eqn:Hr; [|by eexists].
    destruct Hfits. subst r.
    destruct (process_matrix_response data origins dests) as [r' out] eqn:Hrun.
    simpl in Hr. subst r'.
    apply process_matrix_response_returns in Hrun as (Hok%rows_ok_fits & _).
    destruct Hok as [Hlen Hrows]. split; [|done].
    destruct Hlen as [->|]; simpl; lia. }
  split_and!; [done| |done|].
  - intros Hfits Hread.
    destruct (process_rows_readable origins dests (rows_of data) 0 ∅ Hread) as [?|Hbad];
      [done|].
    by destruct (Hsafe Hfits).
  - intros Hfits Hread.
    destruct (process_rows_readable origins dests (rows_of data) 0 ∅ Hread)
      as [[routes Hret]|Hbad]; [|done].
    destruct (Hraise Hfits) as [e He]. unfold r in He.
    unfold process_matrix_response in He. fold (rows_of data) in He.
    unfold enumerate in He. congruence.
Qed.

#[local] Opaque pretty str_times.

Lemma Run_bind_eq {A B : Type} (m : Run A) (f : A → Run B) (s : State) :
  (m ≫= f) s =
  match m s with
  | (Return a, s') => f a s'
  | (Raised e, s') => (Raised e, s')
  end.
Proof. done. Qed.

(** ** The loops of [main] *)

Lemma for_cons {A : Type} (x : A) (l : list A) (body : A → Run unit) (s : State) :
  for_ (x :: l) body s =
  match body x s with
  | (Return _, s') => for_ l body s'
  | (Raised e, s') => (Raised e, s')
  end.
Proof. done. Qed.

Lemma for_app {A : Type} (l1 l2 : list A) (body : A → Run unit) (s : State) :
  for_ (l1 ++ l2) body s =
  match for_ l1 body s with
  | (Return _, s') => for_ l2 body s'
  | (Raised e, s') => (Raised e, s')
  end.
Proof.
  revert s. induction l1 as [|x l1 IH]; intros s; [done|].
  rewrite <- app_comm_cons, !for_cons.
  destruct (body x s) as [[[]|e] s']; [apply IH|done].
Qed.

Lemma for_ext {A : Type} (l : list A) (body1 body2 : A → Run unit) (s : State) :
  (∀ x s', body1 x s' = body2 x s') → for_ l body1 s = for_ l body2 s.
Proof.
  intros Hext. revert s. induction l as [|x l IH]; intros s; [done|].
  rewrite !for_cons, Hext. by destruct (body2 x s) as [[[]|e] s'].
Qed.

Lemma for_singleton {A : Type} (x : A) (body : A → Run unit) (s : State) :
  for_ [x] body s = body x s.
Proof. rewrite for_cons. by destruct (body x s) as [[[]|e] s']. Qed.

Lemma for_bind {A B : Type} (l : list A) (f : A → list B) (body : B → Run unit)
    (s : State) :
  for_ (l ≫= f) body s = for_ l (λ x, for_ (f x) body) s.
Proof.
  revert s. induction l as [|x l IH]; intros s; [done|].
  rewrite bind_cons, for_app, for_cons.
  destruct (for_ (f x) body s) as [[[]|e] s']; [apply IH|done].
Qed.

(** The nested loops go through the sub-queries in order. *)
Lemma request_all_sub_queries (env : Env) (locations : list Location) (B : nat)
    (s : State) :
  request_all env locations B s = for_ (sub_queries locations B) (request_batch env) s.
Proof.
  unfold request_all, sub_queries. rewrite for_bind.
  apply for_ext. intros i s'. rewrite for_bind.
  apply for_ext. intros j s''. by rewrite for_singleton.
Qed.

(** *** One request *)

Lemma request_batch_result (env : Env) (sq : SubQuery) (s : State) :
  let r := request_batch env sq s in
  http_log r.2 = http_log s
                 ++ [request_params env (batch_origins sq) (batch_destinations sq)]
  ∧ routes_cache_file r.2 = routes_cache_file s
  ∧ match cell_routes env (length (http_log s)) sq with
    | Return routes =>
        r.1 = Return tt ∧ cache r.2 = routes ∪ cache s
        ∧ request_count r.2 = request_count s + 1
    | Raised e => r.1 = Raised e ∧ cache r.2 = cache s
    end.
Proof.
  unfold cell_routes, request_batch, get_distance_matrix, requests_get, merge_response.
  unfold response_json, sleep.
  unfold mbind, Run_bind, mret, Run_ret, say, get_request_count, get_cache. simpl.
  destruct (service env _ _) as [|status_code body]; simpl; [repeat split|].
  destruct (response_ok status_code); simpl; [|repeat split].
  destruct body as [data|]; simpl; [|repeat split].
  repeat case_decide; try done; simpl;
    try (destruct (process_matrix_response data _ _) as [[routes|e] out]; simpl);
    repeat split.
  all: by rewrite (left_id_L ∅ (∪)).
Qed.

(** *** All requests *)

Lemma for_batches (env : Env) (sqs : list SubQuery) (s : State) :
  let r := for_ sqs (request_batch env) s in
  cache r.2 = merged env (length (http_log s)) sqs (cache s)
  ∧ routes_cache_file r.2 = routes_cache_file s
  ∧ ((∀ i sq, sqs !! i = Some sq →
        ∃ routes, cell_routes env (length (http_log s) + i) sq = Return routes) →
     r.1 = Return tt
     ∧ length (http_log r.2) = length (http_log s) + length sqs
     ∧ request_count r.2 = request_count s + length sqs).
Proof.
  revert s. induction sqs as [|sq sqs IH]; intros s.
  { simpl. split_and!; [done..|]. intros _. split_and!; [done|lia..]. }
  rewrite for_cons. simpl merged. simpl length.
  pose proof (request_batch_result env sq s) as (Hlog & Hfile & Hcell). simpl in *.
  destruct (request_batch env sq s) as [r s1]. simpl in *.
  destruct (cell_routes env (length (http_log s)) sq) as [routes|e] eqn:Hroutes.
  - destruct Hcell as (-> & Hcache & Hcount).
    destruct (IH s1) as (IHcache & IHfile & IHrun).
    rewrite Hlog, length_app in IHcache, IHrun. simpl in *.
    replace (length (http_log s) + 1) with (S (length (http_log s))) in * by lia.
    split_and!.
    + by rewrite IHcache, Hcache.
    + by rewrite IHfile.
    + intros Hall. destruct IHrun as (Hr & Hlen & Hrc).
      { intros i sq' Hi. destruct (Hall (S i) sq' Hi) as [routes' Hr'].
        exists routes'. rewrite <- Hr'. f_equal. lia. }
      split_and!; [done|lia..].
  - destruct Hcell as (-> & Hcache). split_and!; [done..|].
    intros Hall. destruct (Hall 0 sq eq_refl) as [routes' Hr'].
    rewrite Nat.add_0_r in Hr'. congruence.
Qed.

Lemma merged_dom_mono (env : Env) (sqs : list SubQuery) (k : nat)
    (c : gmap string RouteInfo) :
  dom c ⊆ dom (merged env k sqs c).
Proof.
  revert k c. induction sqs as [|sq sqs IH]; intros k c; simpl; [done|].
  destruct (cell_routes env k sq) as [routes|e]; [|done].
  etrans; [|apply IH]. rewrite dom_union. set_solver.
Qed.

Lemma merged_app_mono (env : Env) (sqs1 sqs2 : list SubQuery) (k : nat)
    (c : gmap string RouteInfo) :
  dom (merged env k sqs1 c) ⊆ dom (merged env k (sqs1 ++ sqs2) c).
Proof.
  revert k c. induction sqs1 as [|sq sqs1 IH]; intros k c; simpl.
  - apply merged_dom_mono.
  - destruct (cell_routes env k sq) as [routes|e]; [apply IH|done].
Qed.

(** C7: aggregating the same response into the cache twice leaves the same
    mapping as aggregating it once, from every cache (and when the
    aggregation raises, the cache is as it was, both times). *)
Theorem merge_idempotent (data : MatrixData) (origins dests : list Location)
    (s : State) :
  cache ((merge_response data origins dests;;
          merge_response data origins dests) s).2
  = cache (merge_response data origins dests s).2.
Proof.
  unfold merge_response, mbind, Run_bind, mret, Run_ret, say, get_cache, set_cache.
  simpl.
  destruct (process_matrix_response data origins dests) as [[routes|e] out]; simpl;
    [|done].
  by rewrite (assoc_L (∪)), (idemp_L (∪)).
Qed.

(** C9: the nested loops are the sub-queries taken in order, and between
    sub-queries the cache only grows: the keys it has after [k] sub-queries
    are still there after [k + d] of them, and it is no smaller then. *)
Theorem cache_grows (env : Env) (locations : list Location) (B : nat)
    (s : State) (k d : nat) :
  let qs := sub_queries locations B in
  let after := λ k, (for_ (take k qs) (request_batch env) s).2 in
  request_all env locations B s = for_ qs (request_batch env) s
  ∧ after 0 = s
  ∧ after (length qs) = (request_all env locations B s).2
  ∧ dom (cache (after k)) ⊆ dom (cache (after (k + d)))
  ∧ size (cache (after k)) ≤ size (cache (after (k + d))).
Proof.
  intros qs after.
  assert (dom (cache (after k)) ⊆ dom (cache (after (k + d)))) as Hdom.
  { unfold after.
    destruct (for_batches env (take k qs) s) as (-> & _).
    destruct (for_batches env (take (k + d) qs) s) as (-> & _).
    rewrite <- take_take_drop. apply merged_app_mono. }
  split_and!.
  - apply request_all_sub_queries.
  - done.
  - unfold after. by rewrite firstn_all, request_all_sub_queries.
  - done.
  - rewrite <- !size_dom. by apply subseteq_size.
Qed.

(** ** [main] and the script *)

(** [main] with the credential and the locations: the requests start from
    an empty cache, and what follows them depends on how they end. *)
Lemma main_result (env : Env) (locations : list Location) (s : State) :
  GOOGLE_API_KEY env ≠ EmptyString → locations_json env = Return locations →
  ∃ s0, http_log s0 = http_log s ∧ cache s0 = ∅ ∧ request_count s0 = 0
        ∧ routes_cache_file s0 = routes_cache_file s
        ∧ let l := request_all env locations BATCH_SIZE s0 in
          let r := main env s in
          match l.1 with
          | Raised e => r = (Raised e, l.2)
          | Return _ =>
              if routes_cache_writable env then
                r.1 = Return tt ∧ cache r.2 = cache l.2
                ∧ routes_cache_file r.2 = Some (cache l.2)
                ∧ http_log r.2 = http_log l.2
                ∧ (Z.of_nat (size (cache l.2)) < expected_routes (length locations)
                   → last (stdout r.2)
                     = Some (deficit_warning (length locations) (size (cache l.2))))%Z
                ∧ (¬ Z.of_nat (size (cache l.2)) < expected_routes (length locations)
                   → last (stdout r.2) = Some ("Saved to: " +:+ ROUTES_CACHE_FILE env))%Z
              else r = (Raised OSError, l.2)
          end.
Proof.
  intros Hkey Hloc.
  remember (main env s) as r eqn:Hr. unfold main in Hr.
  do 3 (rewrite Run_bind_eq in Hr; simpl in Hr).
  rewrite decide_False in Hr by done.
  do 2 (rewrite Run_bind_eq in Hr; simpl in Hr).
  rewrite Hloc in Hr.
  do 6 (rewrite Run_bind_eq in Hr; simpl in Hr).
  match type of Hr with
  | _ = match request_all _ _ _ ?s0 with _ => _ end => exists s0
  end.
  split_and!; [reflexivity..|]. simpl.
  destruct (request_all env locations BATCH_SIZE _) as [[[]|e] s1]; simpl; [|done].
  do 2 (rewrite Run_bind_eq in Hr; simpl in Hr). unfold dump_cache in Hr.
  destruct (routes_cache_writable env); simpl in Hr; [|done].
  do 9 (rewrite Run_bind_eq in Hr; simpl in Hr).
  case_decide; simpl in Hr; subst r; simpl; split_and!; try done.
  - intros _. apply last_snoc.
  - intros _. apply last_snoc.
Qed.

Lemma script_installed (env : Env) (s : State) :
  requests_installed env = true → script env s = main env s.
Proof.
  intros Hreq. unfold script. rewrite Hreq.
  unfold mbind, Run_bind, mret, Run_ret. done.
Qed.

(** A request that the service answers with an HTTP error, or with a status
    other than OK, is skipped: the cache is as before and the run goes on. *)
Lemma request_batch_failed (env : Env) (sq : SubQuery) (s : State)
    (status_code : Z) (body : option MatrixData) :
  service env (length (http_log s))
    (request_params env (batch_origins sq) (batch_destinations sq))
    = Response status_code body →
  (response_ok status_code = false
   ∨ ∃ data, body = Some data ∧ data_status data ≠ Some "OK") →
  (request_batch env sq s).1 = Return tt
  ∧ cache (request_batch env sq s).2 = cache s.
Proof.
  intros Hservice Hfail.
  pose proof (request_batch_result env sq s) as (_ & _ & Hcell). simpl in Hcell.
  unfold cell_routes in Hcell. rewrite Hservice in Hcell.
  destruct Hfail as [Hok|(data & -> & Hstatus)].
  - rewrite Hok in Hcell. destruct Hcell as (? & Hcache & _).
    by rewrite (left_id_L ∅ (∪)) in Hcache.
  - destruct (response_ok status_code).
    + rewrite decide_False in Hcell by done. destruct Hcell as (? & Hcache & _).
      by rewrite (left_id_L ∅ (∪)) in Hcache.
    + destruct Hcell as (? & Hcache & _).
      by rewrite (left_id_L ∅ (∪)) in Hcache.
Qed.

Lemma answered_cell (env : Env) (locations : list Location) (k : nat) (sq : SubQuery) :
  answered env locations → sub_queries locations BATCH_SIZE !! k = Some sq →
  ∃ routes, cell_routes env k sq = Return routes.
Proof.
  intros Hans Hsq. destruct (Hans k sq Hsq) as (status_code & body & Hservice & Hbody).
  unfold cell_routes. rewrite Hservice.
  destruct (response_ok status_code); [|by eexists].
  destruct Hbody as (data & -> & Hdata); [done|].
  case_decide as Hstatus; [|by eexists].
  destruct (Hdata Hstatus) as [Hfits Hread]. by apply fits_readable_returns.
Qed.

(** When every request is answered, the script runs to its end. *)
Lemma script_answered (env : Env) (locations : list Location) :
  requests_installed env = true → GOOGLE_API_KEY env ≠ EmptyString →
  locations_json env = Return locations → routes_cache_writable env = true →
  answered env locations →
  let r := script env initial_state in
  r.1 = Return tt
  ∧ cache r.2 = merged env 0 (sub_queries locations BATCH_SIZE) ∅
  ∧ routes_cache_file r.2 = Some (cache r.2)
  ∧ length (http_log r.2) = length (sub_queries locations BATCH_SIZE)
  ∧ (Z.of_nat (size (cache r.2)) < expected_routes (length locations)
     → last (stdout r.2)
       = Some (deficit_warning (length locations) (size (cache r.2))))%Z
  ∧ (¬ Z.of_nat (size (cache r.2)) < expected_routes (length locations)
     → last (stdout r.2) = Some ("Saved to: " +:+ ROUTES_CACHE_FILE env))%Z.
Proof.
  intros Hreq Hkey Hloc Hwrite Hans r. unfold r. rewrite script_installed by done.
  destruct (main_result env locations initial_state Hkey Hloc)
    as (s0 & Hlog & Hcache & Hcount & Hfile & Hmain).
  simpl in Hmain. rewrite request_all_sub_queries in Hmain.
  destruct (for_batches env (sub_queries locations BATCH_SIZE) s0)
    as (Hmerged & _ & Hrun).
  rewrite Hlog, Hcache in Hmerged. simpl in Hmerged.
  destruct Hrun as (Hret & Hlen & _).
  { intros i sq Hsq. rewrite Hlog. simpl. by eapply answered_cell. }
  rewrite Hlog in Hlen. simpl in Hlen.
  rewrite Hret, Hwrite in Hmain.
  destruct Hmain as (Hr & Hc & Hf & Hl & Hwarn & Hsaved).
  rewrite Hc, Hl, Hmerged. rewrite Hmerged in Hf, Hwarn, Hsaved.
  split_and!; done.
Qed.

(** C3, at a run in which the second of four requests cannot connect:
    [requests.get] raises, nothing catches the exception, and the run ends
    there with exit status 1, the 90 routes of the first request are not
    written to the cache file, and the last two requests are never made. *)
Theorem connection_failure_aborts :
  let r := script Sample.env_offline initial_state in
  length (sub_queries Sample.eleven BATCH_SIZE) = 4
  ∧ r.1 = Raised RequestException
  ∧ exit_status r.1 = 1%Z
  ∧ length (http_log r.2) = 2
  ∧ size (cache r.2) = 90
  ∧ routes_cache_file r.2 = None.
Proof. vm_compute. repeat split. Qed.

(** *** The sample runs *)

Lemma grid_fits (r c : nat) (origins dests : list Location) :
  r ≤ length origins → c ≤ length dests → fits (Sample.grid r c) origins dests.
Proof.
  intros Hr Hc. unfold fits, rows_of. simpl. rewrite length_replicate.
  split; [done|]. apply Forall_replicate. unfold elements_of. simpl.
  by rewrite length_replicate.
Qed.

Lemma grid_full_ok (r c : nat) : full_ok_grid (Sample.grid r c) r c.
Proof.
  unfold full_ok_grid, rows_of. simpl. rewrite length_replicate.
  split; [done|]. apply Forall_replicate. unfold elements_of. simpl.
  rewrite length_replicate. split; [done|]. apply Forall_replicate.
  split; [done|]. vm_compute. by eexists.
Qed.

Lemma grid_readable (r c : nat) : all_readable (Sample.grid r c).
Proof.
  destruct (grid_full_ok r c) as [_ Hrows]. unfold all_readable.
  eapply Forall_impl; [exact Hrows|]. intros row [_ Hels]. simpl.
  eapply Forall_impl; [exact Hels|]. by intros el [_ Hel] _.
Qed.

Lemma answered_degraded : answered Sample.env_degraded Sample.eleven.
Proof.
  intros k sq Hsq.
  destruct k as [|[|[|[|k]]]]; vm_compute in Hsq; [..|discriminate];
    injection Hsq as <-; simpl; eexists _, _; (split; [reflexivity|]).
  - intros _. eexists. split; [reflexivity|]. intros _.
    split; [by apply grid_fits|apply grid_readable].
  - discriminate.
  - intros _. eexists. split; [reflexivity|]. discriminate.
  - intros _. eexists. split; [reflexivity|]. intros _.
    split; [by apply grid_fits|apply grid_readable].
Qed.

(** C8 as it stands fails: without the [requests] library the script exits
    with status 1 although the credential is set. *)
Lemma exit_without_requests_library :
  ¬ (∀ env, exit_status (script env initial_state).1 ≠ 0%Z → GOOGLE_API_KEY env = EmptyString).
Proof.
  intros H. specialize (H Sample.env_no_requests).
  assert (GOOGLE_API_KEY Sample.env_no_requests = EmptyString) as Hkey by (by apply H).
  discriminate Hkey.
Qed.

(** C8, amended: the script exits with status 1, before any request, when
    the [requests] library cannot be imported or when the credential is
    absent or empty; with both, and when the locations are read, the
    requests answered and the cache file written, it exits with status 0
    whether the matrix is complete or not, and a deficit is the last line it
    prints. *)
Theorem exit_status_cases (env : Env) :
  let r := script env initial_state in
  (requests_installed env = false →
     r.1 = Raised (SystemExit 1) ∧ exit_status r.1 = 1%Z ∧ http_log r.2 = [])
  ∧ (requests_installed env = true → GOOGLE_API_KEY env = EmptyString →
     r.1 = Raised (SystemExit 1) ∧ exit_status r.1 = 1%Z ∧ http_log r.2 = [])
  ∧ (requests_installed env = true → GOOGLE_API_KEY env ≠ EmptyString →
     ∀ locations,
       locations_json env = Return locations → routes_cache_writable env = true →
       answered env locations →
       exit_status r.1 = 0%Z
       ∧ routes_cache_file r.2 = Some (cache r.2)
       ∧ (Z.of_nat (size (cache r.2)) < expected_routes (length locations)
          → last (stdout r.2)
            = Some (deficit_warning (length locations) (size (cache r.2))))%Z).
Proof.
  intros r. split_and!.
  - intros Hreq. unfold r, script. rewrite Hreq. done.
  - intros Hreq Hkey. unfold r. rewrite script_installed by done.
    unfold main. do 3 (rewrite Run_bind_eq; simpl).
    rewrite decide_True by done. done.
  - intros Hreq Hkey locations Hloc Hwrite Hans.
    destruct (script_answered env locations Hreq Hkey Hloc Hwrite Hans)
      as (Hret & _ & Hfile & _ & Hwarn & _).
    fold r in Hret, Hfile, Hwarn. rewrite Hret. done.
Qed.

Lemma exit_status_cases_witness :
  let r := script Sample.env_degraded initial_state in
  GOOGLE_API_KEY Sample.env_degraded ≠ EmptyString
  ∧ exit_status r.1 = 0%Z
  ∧ routes_cache_file r.2 = Some (cache r.2)
  ∧ ((Z.of_nat (size (cache r.2)) < expected_routes (length Sample.eleven))%Z
     → last (stdout r.2)
       = Some (deficit_warning (length Sample.eleven) (size (cache r.2)))).
Proof.
  intros r. split; [discriminate|].
  destruct (exit_status_cases Sample.env_degraded) as (_ & _ & H).
  apply (H eq_refl); [discriminate | reflexivity | reflexivity | ].
  exact answered_degraded.
Defined.

#[local] Transparent pretty str_times.

(** ** The size of a complete cache *)

Lemma NoDup_fmap_eq {A B : Type} (f : A → B) (l : list A) (x y : A) :
  NoDup (f <$> l) → x ∈ l → y ∈ l → f x = f y → x = y.
Proof.
  induction l as [|z l IH]; intros Hnd Hx Hy Hf; [by apply elem_of_nil in Hx|].
  rewrite fmap_cons in Hnd. apply NoDup_cons in Hnd as [Hz Hnd].
  apply elem_of_cons in Hx as [->|Hx]; apply elem_of_cons in Hy as [->|Hy].
  - done.
  - destruct Hz. rewrite Hf. apply list_elem_of_fmap. eauto.
  - destruct Hz. rewrite <- Hf. apply list_elem_of_fmap. eauto.
  - by apply IH.
Qed.

Lemma filter_other_ids_all (x : Location) (l : list Location) :
  loc_id x ∉ loc_id <$> l → filter (λ d, loc_id x ≠ loc_id d) l = l.
Proof.
  induction l as [|y l IH]; intros Hx; [done|].
  rewrite fmap_cons, not_elem_of_cons in Hx. destruct Hx as [Hxy Hx].
  rewrite filter_cons, decide_True by done. by rewrite IH.
Qed.

(** Among locations with different ids, all but one differ from [x]. *)
Lemma filter_other_ids_length (x : Location) (l : list Location) :
  NoDup (loc_id <$> l) → x ∈ l →
  length (filter (λ d, loc_id x ≠ loc_id d) l) = length l - 1.
Proof.
  induction l as [|y l IH]; intros Hnd Hx; [by apply elem_of_nil in Hx|].
  rewrite fmap_cons in Hnd. apply NoDup_cons in Hnd as [Hy Hnd].
  rewrite filter_cons.
  destruct (decide (loc_id x = loc_id y)) as [Heq|Hne].
  - rewrite decide_False by (by intros ?).
    rewrite filter_other_ids_all by (by rewrite Heq). simpl. lia.
  - rewrite decide_True by done.
    apply elem_of_cons in Hx as [->|Hx]; [done|].
    simpl. rewrite IH by done. destruct l; [by apply elem_of_nil in Hx|simpl; lia].
Qed.

Lemma non_self_pairs_length (locations : list Location) :
  NoDup (loc_id <$> locations) →
  length (non_self_pairs locations) = length locations * (length locations - 1).
Proof.
  intros Hnd. unfold non_self_pairs.
  assert (∀ l, l ⊆ locations →
            length (filter (λ p : Location * Location, loc_id p.1 ≠ loc_id p.2)
                      (list_prod l locations))
            = length l * (length locations - 1)) as Hgen.
  { induction l as [|x l IH]; intros Hsub; [done|].
    simpl list_prod. rewrite filter_app, length_app, IH by set_solver.
    simpl. f_equal.
    rewrite <- (filter_other_ids_length x locations) by set_solver.
    clear. induction locations as [|d ds IHd]; [done|].
    simpl map. rewrite !filter_cons. simpl.
    destruct (decide (loc_id x ≠ loc_id d)); simpl; by rewrite IHd. }
  by apply Hgen.
Qed.

Lemma elem_of_non_self_pairs (locations : list Location) (o d : Location) :
  (o, d) ∈ non_self_pairs locations ↔
  o ∈ locations ∧ d ∈ locations ∧ loc_id o ≠ loc_id d.
Proof.
  unfold non_self_pairs.
  rewrite list_elem_of_filter, <- list_cprod_list_prod, list_elem_of_cprod.
  simpl. naive_solver.
Qed.

Lemma NoDup_non_self_keys (locations : list Location) :
  NoDup (loc_id <$> locations) → keys_distinct locations →
  NoDup ((λ p, cache_key p.1 p.2) <$> non_self_pairs locations).
Proof.
  intros Hnd Hkeys. apply NoDup_fmap_2_strong.
  - intros [o d] [o' d'] (Ho & Hd & _)%elem_of_non_self_pairs
      (Ho' & Hd' & _)%elem_of_non_self_pairs Hk. simpl in Hk.
    destruct (Hkeys o d o' d' Ho Hd Ho' Hd' Hk) as [Hio Hid].
    f_equal; by eapply (NoDup_fmap_eq loc_id locations).
  - unfold non_self_pairs. apply NoDup_filter, NoDup_list_prod;
      by apply (NoDup_fmap_1 loc_id).
Qed.

(** The keys that a full grid of OK elements leaves: those of all pairs of
    an origin and a destination with different ids. *)
Lemma full_ok_grid_routes (data : MatrixData) (origins dests : list Location) :
  full_ok_grid data (length origins) (length dests) →
  ∃ routes,
    (process_matrix_response data origins dests).1 = Return routes
    ∧ ∀ key, key ∈ dom routes ↔
             ∃ o d, o ∈ origins ∧ d ∈ dests ∧ loc_id o ≠ loc_id d
                    ∧ key = cache_key o d.
Proof.
  intros [Hlen Hrows].
  destruct (fits_readable_returns data origins dests) as [routes Hret].
  { split; [lia|]. eapply Forall_impl; [exact Hrows|]. intros row [-> _]. done. }
  { eapply Forall_impl; [exact Hrows|]. intros row [_ Hels]. simpl.
    eapply Forall_impl; [exact Hels|]. by intros el [_ Hel] _. }
  exists routes. split; [done|].
  destruct (process_matrix_response data origins dests) as [r out] eqn:Hrun.
  simpl in Hret. subst r.
  apply process_matrix_response_returns in Hrun as (_ & -> & _).
  intros key. rewrite dom_store, dom_empty_L, (right_id_L ∅ (∪)).
  rewrite elem_of_list_to_set, list_elem_of_fmap. split.
  - intros ([key' e] & -> & Hin). simpl.
    apply elem_of_writes in Hin as (o & d & el & Hpos & Hne & _ & _ & ->).
    apply elem_of_positions in Hpos as (i & j & row & _ & _ & Ho & Hd).
    exists o, d. split_and!; [by eapply list_elem_of_lookup_2..|done|done].
  - intros (o & d & Ho & Hd & Hne & ->).
    apply list_elem_of_lookup in Ho as [i Hi], Hd as [j Hj].
    destruct (lookup_lt_is_Some_2 (rows_of data) i) as [row Hrow].
    { rewrite Hlen. by eapply lookup_lt_Some. }
    rewrite Forall_forall in Hrows.
    destruct (Hrows row) as [Hlenr Hels]; [by eapply list_elem_of_lookup_2|].
    destruct (lookup_lt_is_Some_2 (elements_of row) j) as [el Hel].
    { rewrite Hlenr. by eapply lookup_lt_Some. }
    rewrite Forall_forall in Hels.
    destruct (Hels el) as [Hst [e He]]; [by eapply list_elem_of_lookup_2|].
    exists (cache_key o d, e). split; [done|].
    apply elem_of_writes. exists o, d, el. split_and!; try done.
    apply elem_of_positions. eauto 10.
Qed.

(** The keys of the cache after a list of sub-queries none of which raises. *)
Lemma merged_dom (env : Env) (sqs : list SubQuery) (k : nat)
    (c : gmap string RouteInfo) :
  (∀ i sq, sqs !! i = Some sq → ∃ routes, cell_routes env (k + i) sq = Return routes) →
  ∀ key, key ∈ dom (merged env k sqs c) ↔
         key ∈ dom c
         ∨ ∃ i sq routes, sqs !! i = Some sq
                          ∧ cell_routes env (k + i) sq = Return routes
                          ∧ key ∈ dom routes.
Proof.
  revert k c. induction sqs as [|sq sqs IH]; intros k c Hall key; simpl.
  { split; [by left|]. intros [?|(i & sq & routes & Hi & _)]; done. }
  destruct (Hall 0 sq eq_refl) as [routes Hroutes].
  rewrite Nat.add_0_r in Hroutes. rewrite Hroutes.
  rewrite IH.
  - rewrite dom_union, elem_of_union. split.
    + intros [[Hin|Hin]|(i & sq' & routes' & Hi & Hr & Hin)].
      * right. exists 0, sq, routes. rewrite Nat.add_0_r. done.
      * by left.
      * right. exists (S i), sq', routes'. split_and!; [done| |done].
        rewrite <- Hr. f_equal. lia.
    + intros [Hin|([|i] & sq' & routes' & Hi & Hr & Hin)].
      * left. by right.
      * left. left. simpl in Hi. rewrite Nat.add_0_r in Hr. congruence.
      * right. exists i, sq', routes'. split_and!; [done| |done].
        rewrite <- Hr. f_equal. lia.
  - intros i sq' Hi. destruct (Hall (S i) sq' Hi) as [routes' Hr].
    exists routes'. rewrite <- Hr. f_equal. lia.
Qed.

(** A location is in the batch of some chunk, and the batches hold
    locations only. *)
Lemma elem_of_slice (locations : list Location) (start stop : nat) (o : Location) :
  o ∈ slice locations start stop → o ∈ locations.
Proof.
  unfold slice. intros [a Ha]%list_elem_of_lookup.
  apply lookup_take_Some in Ha as [Ha _]. rewrite lookup_drop in Ha.
  by eapply list_elem_of_lookup_2.
Qed.

Lemma elem_of_some_chunk (B : nat) (locations : list Location) (o : Location) :
  1 ≤ B → o ∈ locations →
  ∃ r, r ∈ chunks (length locations) B ∧ o ∈ slice locations r.1 r.2.
Proof.
  intros HB [i Hi]%list_elem_of_lookup.
  assert (i ∈ seq 0 (length locations)) as Hseq.
  { apply elem_of_seq. apply lookup_lt_Some in Hi. lia. }
  rewrite <- (chunks_tile B HB) in Hseq.
  apply list_elem_of_bind in Hseq as (r & Hin & Hr).
  apply elem_of_seq in Hin.
  exists r. split; [done|].
  pose proof (chunks_bounds B HB (length locations)) as Hb.
  rewrite Forall_forall in Hb. destruct (Hb r Hr) as (_ & Hstop & _).
  destruct (slice_holds_range locations r.1 r.2 Hstop) as [_ Hlook].
  apply (list_elem_of_lookup_2 _ (i - r.1)). rewrite Hlook by lia.
  rewrite <- Hi. f_equal. lia.
Qed.

Lemma all_ok_cell (env : Env) (locations : list Location) (i : nat) (sq : SubQuery) :
  all_ok env locations → sub_queries locations BATCH_SIZE !! i = Some sq →
  ∃ routes,
    cell_routes env i sq = Return routes
    ∧ ∀ key, key ∈ dom routes ↔
             ∃ o d, o ∈ batch_origins sq ∧ d ∈ batch_destinations sq
                    ∧ loc_id o ≠ loc_id d ∧ key = cache_key o d.
Proof.
  intros Hall Hsq.
  destruct (Hall i sq Hsq) as (status_code & data & Hservice & Hok & Hstatus & Hfull).
  unfold cell_routes. rewrite Hservice, Hok, decide_True by done.
  by apply full_ok_grid_routes.
Qed.

Lemma all_ok_answered (env : Env) (locations : list Location) :
  all_ok env locations → answered env locations.
Proof.
  intros Hall k sq Hsq.
  destruct (Hall k sq Hsq) as (status_code & data & Hservice & Hok & Hstatus & Hfull).
  exists status_code, (Some data). split; [done|]. intros _.
  exists data. split; [done|]. intros _. destruct Hfull as [Hlen Hrows]. split.
  - split; [lia|]. eapply Forall_impl; [exact Hrows|]. by intros row [-> _].
  - eapply Forall_impl; [exact Hrows|]. intros row [_ Hels]. simpl.
    eapply Forall_impl; [exact Hels|]. by intros el [_ Hel] _.
Qed.

(** The keys of the cache when every request was answered in full. *)
Lemma all_ok_dom (env : Env) (locations : list Location) :
  all_ok env locations →
  dom (merged env 0 (sub_queries locations BATCH_SIZE) ∅)
  = list_to_set ((λ p, cache_key p.1 p.2) <$> non_self_pairs locations).
Proof.
  intros Hall. assert (1 ≤ BATCH_SIZE) as HB by (unfold BATCH_SIZE; lia).
  apply set_eq. intros key.
  rewrite merged_dom.
  2:{ intros i sq Hsq. destruct (all_ok_cell env locations i sq Hall Hsq) as (? & ? & _).
      by eexists. }
  rewrite dom_empty_L, elem_of_list_to_set, list_elem_of_fmap. split.
  - intros [Hin|(i & sq & routes & Hsq & Hroutes & Hin)]; [by apply elem_of_empty in Hin|].
    simpl in Hroutes.
    destruct (all_ok_cell env locations i sq Hall Hsq) as (routes' & Hroutes' & Hdom).
    change (0 + i) with i in Hroutes. rewrite Hroutes' in Hroutes.
    injection Hroutes as <-. apply Hdom in Hin as (o & d & Ho & Hd & Hne & ->).
    apply list_elem_of_lookup_2, elem_of_sub_queries in Hsq as (r & c & _ & _ & ->);
      [|done].
    simpl in Ho, Hd. exists (o, d). split; [done|]. apply elem_of_non_self_pairs.
    split_and!; [by eapply elem_of_slice..|done].
  - intros ([o d] & -> & (Ho & Hd & Hne)%elem_of_non_self_pairs). simpl. right.
    destruct (elem_of_some_chunk BATCH_SIZE locations o HB Ho) as (r & Hr & Hor).
    destruct (elem_of_some_chunk BATCH_SIZE locations d HB Hd) as (c & Hc & Hdc).
    assert (cell locations r c ∈ sub_queries locations BATCH_SIZE) as Hsq.
    { apply elem_of_sub_queries; [done|]. eauto. }
    apply list_elem_of_lookup in Hsq as [i Hsq].
    destruct (all_ok_cell env locations i _ Hall Hsq) as (routes & Hroutes & Hdom).
    exists i, (cell locations r c), routes. split_and!; [done..|].
    apply Hdom. exists o, d. done.
Qed.

(** C2 as it stands fails: two locations with the different ids [a] and
    [a_a] have the one key [a_a_a] for both routes, so that a run in which
    every element is OK caches 1 route instead of 2. *)
Lemma distinct_ids_can_share_a_key :
  let r := script Sample.env_clashing initial_state in
  NoDup (loc_id <$> Sample.clashing)
  ∧ all_ok Sample.env_clashing Sample.clashing
  ∧ r.1 = Return tt
  ∧ size (cache r.2) = 1
  ∧ expected_routes (length Sample.clashing) = 2%Z.
Proof.
  split_and!; [| |vm_compute; reflexivity..].
  - refine (bool_decide_unpack _ _). vm_compute. exact I.
  - intros k sq Hsq. destruct k as [|k]; vm_compute in Hsq; [|discriminate].
    injection Hsq as <-. simpl. exists 200%Z, (Sample.grid 2 2).
    split_and!; [reflexivity..|]. apply grid_full_ok.
Qed.

(** C2, amended: when the ids are pairwise different and so are the keys of
    different ordered pairs of locations, and every request is answered
    with success, status OK and a full grid of OK elements, the run ends
    with exactly [N * (N - 1)] entries in the cache, which it writes to the
    cache file. *)
Theorem all_ok_cache_size (env : Env) (locations : list Location) :
  requests_installed env = true → GOOGLE_API_KEY env ≠ EmptyString →
  locations_json env = Return locations → routes_cache_writable env = true →
  NoDup (loc_id <$> locations) → keys_distinct locations →
  all_ok env locations →
  let r := script env initial_state in
  r.1 = Return tt
  ∧ Z.of_nat (size (cache r.2)) = expected_routes (length locations)
  ∧ routes_cache_file r.2 = Some (cache r.2).
Proof.
  intros Hreq Hkey Hloc Hwrite Hnd Hkeys Hall r.
  destruct (script_answered env locations Hreq Hkey Hloc Hwrite
              (all_ok_answered env locations Hall))
    as (Hret & Hcache & Hfile & _).
  fold r in Hret, Hcache, Hfile. split_and!; [done| |done].
  rewrite Hcache, <- size_dom, all_ok_dom by done.
  rewrite size_list_to_set by by apply NoDup_non_self_keys.
  rewrite length_fmap, non_self_pairs_length by done.
  unfold expected_routes. destruct (length locations); lia.
Qed.

(** Ids without an underscore give every ordered pair a key of its own. *)
Lemma cache_key_split (o o' d d' : string) :
  has_underscore o = false → has_underscore o' = false →
  o +:+ "_" +:+ d = o' +:+ "_" +:+ d' → o = o' ∧ d = d'.
Proof.
  revert o'. induction o as [|a o IH]; intros [|a' o'] Ho Ho' Heq;
    simpl in Ho, Ho', Heq.
  - injection Heq as Heq. simpl in Heq. by subst.
  - injection Heq as <- _. by apply orb_false_elim in Ho' as [Ha _].
  - injection Heq as -> _. by apply orb_false_elim in Ho as [Ha _].
  - injection Heq as -> Heq.
    apply orb_false_elim in Ho as [_ Ho]. apply orb_false_elim in Ho' as [_ Ho'].
    by destruct (IH o' Ho Ho' Heq) as [-> ->].
Qed.

Lemma underscore_free_keys_distinct (locations : list Location) :
  Forall (λ o, has_underscore (loc_id o) = false) locations →
  keys_distinct locations.
Proof.
  intros Hfree o d o' d' Ho _ Ho' _ Hkey. rewrite Forall_forall in Hfree.
  apply cache_key_split; [by apply Hfree..|done].
Qed.

Lemma all_ok_cache_size_witness :
  let r := script Sample.env_three initial_state in
  NoDup (loc_id <$> Sample.three)
  ∧ keys_distinct Sample.three
  ∧ r.1 = Return tt
  ∧ Z.of_nat (size (cache r.2)) = expected_routes (length Sample.three)
  ∧ routes_cache_file r.2 = Some (cache r.2).
Proof.
  intros r.
  assert (NoDup (loc_id <$> Sample.three)) as Hnd
    by (refine (bool_decide_unpack _ _); vm_compute; exact I).
  assert (keys_distinct Sample.three) as Hkeys
    by (apply underscore_free_keys_distinct; repeat constructor).
  split; [exact Hnd|]. split; [exact Hkeys|].
  apply (all_ok_cache_size Sample.env_three Sample.three);
    [reflexivity | discriminate | reflexivity | reflexivity | exact Hnd | exact Hkeys |].
  intros k sq Hsq. destruct k as [|k]; vm_compute in Hsq; [|discriminate].
  injection Hsq as <-. simpl. exists 200%Z, (Sample.grid 3 3).
  split_and!; [reflexivity..|]. apply grid_full_ok.
Defined.

Lemma indexing_in_range_witness :
  fits Sample.response Sample.three Sample.three
  ∧ (process_matrix_response Sample.response Sample.three Sample.three).1
    ≠ Raised IndexError
  ∧ ¬ fits Sample.response [Sample.place "a"] Sample.three
  ∧ all_readable Sample.response
  ∧ (process_matrix_response Sample.response [Sample.place "a"] Sample.three).1
    = Raised IndexError.
Proof.
  assert (fits Sample.response Sample.three Sample.three) as Hfits.
  { split; [simpl; lia|]. repeat constructor. }
  assert (¬ fits Sample.response [Sample.place "a"] Sample.three) as Hnofit.
  { intros [Hlen _]. simpl in Hlen. lia. }
  assert (all_readable Sample.response) as Hread.
  { repeat constructor; intros Hst; try discriminate Hst; vm_compute; by eexists. }
  split_and!; [exact Hfits| |exact Hnofit|exact Hread|].
  - exact (proj1 (indexing_in_range Sample.response Sample.three Sample.three) Hfits).
  - destruct (indexing_in_range Sample.response [Sample.place "a"] Sample.three)
      as (_ & _ & _ & H).
    exact (H Hnofit Hread).
Defined.

#[local] Opaque pretty str_times.

(** * Further properties of the script *)

(** ** The trace of the requests *)

Lemma request_batch_trace (env : Env) (sq : SubQuery) (s : State) :
  let r := request_batch env sq s in
  match cell_routes env (length (http_log s)) sq with
  | Return routes =>
      sleeps r.2 = S (sleeps s) ∧ request_count r.2 = S (request_count s)
  | Raised e => sleeps r.2 = sleeps s ∧ request_count r.2 = request_count s
  end.
Proof.
  unfold cell_routes, request_batch, get_distance_matrix, requests_get, merge_response.
  unfold response_json, sleep.
  unfold mbind, Run_bind, mret, Run_ret, say, get_request_count, get_cache. simpl.
  destruct (service env _ _) as [|status_code body]; simpl; [repeat split|].
  destruct (response_ok status_code); simpl; [|split; [done|lia]].
  destruct body as [data|]; simpl; [|repeat split].
  repeat case_decide; try done; simpl;
    try (destruct (process_matrix_response data _ _) as [[routes|e] out]; simpl);
    try (split; [done|lia]); repeat split.
Qed.

Lemma for_batches_trace (env : Env) (sqs : list SubQuery) (s : State) :
  let r := for_ sqs (request_batch env) s in
  let j := completed env (length (http_log s)) sqs in
  r.1 = match first_error env (length (http_log s)) sqs with
        | None => Return tt
        | Some e => Raised e
        end
  ∧ request_count r.2 = request_count s + j
  ∧ sleeps r.2 = sleeps s + j
  ∧ http_log r.2 =
    http_log s ++ (params_of env <$>
                     take (match first_error env (length (http_log s)) sqs with
                           | None => j
                           | Some _ => S j
                           end) sqs).
Proof.
  revert s. induction sqs as [|sq sqs IH]; intros s.
  { simpl. split_and!; [done|lia|lia|by rewrite app_nil_r]. }
  rewrite for_cons. simpl completed. simpl first_error.
  pose proof (request_batch_result env sq s) as (Hlog & _ & Hcell).
  pose proof (request_batch_trace env sq s) as Htrace. simpl in *.
  destruct (request_batch env sq s) as [r s1]. simpl in *.
  destruct (cell_routes env (length (http_log s)) sq) as [routes|e].
  - destruct Hcell as (-> & _ & _). destruct Htrace as [Hsleep Hcount].
    specialize (IH s1). simpl in IH.
    rewrite Hlog, length_app in IH. simpl in IH.
    replace (length (http_log s) + 1) with (S (length (http_log s))) in IH by lia.
    destruct IH as (IH1 & IH2 & IH3 & IH4).
    split_and!; [done|rewrite IH2, Hcount; lia|rewrite IH3, Hsleep; lia|].
    rewrite IH4, <- app_assoc. f_equal.
    by destruct (first_error env (S (length (http_log s))) sqs).
  - destruct Hcell as (-> & _). destruct Htrace as [Hsleep Hcount]. simpl.
    split_and!; [done|lia|lia|]. by rewrite Hlog.
Qed.

(** ** [main], path by path *)

Lemma main_counts (env : Env) (locations : list Location) (s : State) :
  GOOGLE_API_KEY env ≠ EmptyString → locations_json env = Return locations →
  ∃ s0, http_log s0 = http_log s ∧ sleeps s0 = sleeps s ∧ cache s0 = ∅
        ∧ request_count s0 = 0 ∧ routes_cache_file s0 = routes_cache_file s
        ∧ let l := request_all env locations BATCH_SIZE s0 in
          let r := main env s in
          match l.1 with
          | Raised e => r = (Raised e, l.2)
          | Return _ =>
              if routes_cache_writable env then
                r.1 = Return tt ∧ cache r.2 = cache l.2
                ∧ routes_cache_file r.2 = Some (cache l.2)
                ∧ http_log r.2 = http_log l.2
                ∧ sleeps r.2 = sleeps l.2
                ∧ request_count r.2 = request_count l.2
                ∧ ("API requests made: " +:+ pretty (request_count l.2)) ∈ stdout r.2
              else r = (Raised OSError, l.2)
          end.
Proof.
  intros Hkey Hloc.
  remember (main env s) as r eqn:Hr. unfold main in Hr.
  do 3 (rewrite Run_bind_eq in Hr; simpl in Hr).
  rewrite decide_False in Hr by done.
  do 2 (rewrite Run_bind_eq in Hr; simpl in Hr).
  rewrite Hloc in Hr.
  do 6 (rewrite Run_bind_eq in Hr; simpl in Hr).
  match type of Hr with
  | _ = match request_all _ _ _ ?s0 with _ => _ end => exists s0
  end.
  split_and!; [reflexivity..|]. simpl.
  destruct (request_all env locations BATCH_SIZE _) as [[[]|e] s1]; simpl; [|done].
  do 2 (rewrite Run_bind_eq in Hr; simpl in Hr). unfold dump_cache in Hr.
  destruct (routes_cache_writable env); simpl in Hr; [|done].
  do 9 (rewrite Run_bind_eq in Hr; simpl in Hr).
  case_decide; simpl in Hr; subst r; simpl; split_and!; try done.
  - rewrite !elem_of_app. left. left. left. left. right.
    by apply list_elem_of_singleton.
  - rewrite !elem_of_app. left. left. left. right.
    by apply list_elem_of_singleton.
Qed.

Lemma main_load_fails (env : Env) (e : exn) (s : State) :
  GOOGLE_API_KEY env ≠ EmptyString → locations_json env = Raised e →
  (main env s).1 = Raised e
  ∧ http_log (main env s).2 = http_log s
  ∧ cache (main env s).2 = cache s
  ∧ routes_cache_file (main env s).2 = routes_cache_file s.
Proof.
  intros Hkey Hloc.
  remember (main env s) as r eqn:Hr. unfold main in Hr.
  do 3 (rewrite Run_bind_eq in Hr; simpl in Hr).
  rewrite decide_False in Hr by done.
  do 2 (rewrite Run_bind_eq in Hr; simpl in Hr).
  rewrite Hloc in Hr. by subst r.
Qed.

Lemma main_no_key (env : Env) (s : State) :
  GOOGLE_API_KEY env = EmptyString →
  (main env s).1 = Raised (SystemExit 1)
  ∧ http_log (main env s).2 = http_log s
  ∧ cache (main env s).2 = cache s
  ∧ routes_cache_file (main env s).2 = routes_cache_file s.
Proof.
  intros Hkey.
  remember (main env s) as r eqn:Hr. unfold main in Hr.
  do 3 (rewrite Run_bind_eq in Hr; simpl in Hr).
  rewrite decide_True in Hr by done.
  repeat (rewrite Run_bind_eq in Hr; simpl in Hr). by subst r.
Qed.

Lemma script_not_installed (env : Env) (s : State) :
  requests_installed env = false →
  (script env s).1 = Raised (SystemExit 1)
  ∧ http_log (script env s).2 = http_log s
  ∧ cache (script env s).2 = cache s
  ∧ routes_cache_file (script env s).2 = routes_cache_file s.
Proof. intros Hreq. unfold script. rewrite Hreq. done. Qed.

(** ** More on [process_matrix_response] *)

Lemma Forall_enumerate_from {A : Type} (P : nat * A → Prop) (l : list A) (k : nat) :
  Forall P (enumerate_from k l) ↔ ∀ i x, l !! i = Some x → P (k + i, x).
Proof.
  rewrite Forall_forall. split.
  - intros H i x Hi. apply H, elem_of_enumerate_from. eauto.
  - intros H [i x] (j & -> & Hj)%elem_of_enumerate_from. by apply H.
Qed.

Lemma is_Some_entry_of (el : Element) :
  is_Some (entry_of el) ↔
  ∃ distance_m duration_s,
    (∃ distance duration,
       el_distance el = Some distance ∧ value distance = Some distance_m
       ∧ el_duration el = Some duration ∧ value duration = Some duration_s)
    ∧ is_Some (PyFloat.int_truediv distance_m 1000).
Proof.
  split.
  - intros [e (distance & duration & m & km & ? & ? & ? & ? & ? & ?)%entry_of_Some].
    exists m, (duration_seconds e). split; [eauto 10|by eexists].
  - intros (m & s & (distance & duration & Hd & Hm & Hu & Hs) & [km Hkm]).
    rewrite entry_of_unfold, Hd, Hm, Hu, Hs, Hkm. by eexists.
Qed.

(** Over the records, the aggregation returns exactly when every row has
    an origin, every element a destination, and every element with status
    OK of a pair of different ids has its two measures with a distance that
    fits a float. *)
Lemma process_matrix_response_returns_iff (data : MatrixData) (origins dests : list Location) :
  (∃ routes, (process_matrix_response data origins dests).1 = Return routes) ↔
  ∀ i row, rows_of data !! i = Some row →
    ∃ o, origins !! i = Some o
         ∧ ∀ j el, elements_of row !! j = Some el →
             ∃ d, dests !! j = Some d
                  ∧ (loc_id o ≠ loc_id d → el_status el = Some "OK" →
                     ∃ distance_m duration_s,
                       (∃ distance duration,
                          el_distance el = Some distance
                          ∧ value distance = Some distance_m
                          ∧ el_duration el = Some duration
                          ∧ value duration = Some duration_s)
                       ∧ is_Some (PyFloat.int_truediv distance_m 1000)).
Proof.
  assert ((∃ routes, (process_matrix_response data origins dests).1 = Return routes)
          ↔ rows_ok origins dests 0 (rows_of data)) as ->.
  { split.
    - intros [routes Hret].
      destruct (process_matrix_response data origins dests) as [r out] eqn:Hrun.
      simpl in Hret. subst r.
      by apply process_matrix_response_returns in Hrun as (Hok & _).
    - intros Hok. eexists.
      erewrite (proj2 (process_matrix_response_returns data origins dests _ _)); done. }
  unfold rows_ok, row_ok. rewrite Forall_enumerate_from. split.
  - intros H i row Hi. destruct (H i row Hi) as (o & Ho & Hrow). simpl in Ho, Hrow.
    exists o. split; [done|]. rewrite Forall_enumerate_from in Hrow.
    intros j el Hj. destruct (Hrow j el Hj) as (d & Hd & He). simpl in Hd, He.
    exists d. split; [done|]. intros Hne Hst. by apply is_Some_entry_of, He.
  - intros H i row Hi. destruct (H i row Hi) as (o & Ho & Hrow). simpl.
    exists o. split; [done|]. apply Forall_enumerate_from.
    intros j el Hj. destruct (Hrow j el Hj) as (d & Hd & He). simpl.
    exists d. split; [done|]. intros Hne Hst. by apply is_Some_entry_of, He.
Qed.

(** *** Counting writes and warnings *)

Lemma rows_ok_entry (data : MatrixData) (origins dests : list Location)
    (o d : Location) (el : Element) :
  rows_ok origins dests 0 (rows_of data) →
  (o, d, el) ∈ positions data origins dests →
  loc_id o ≠ loc_id d → el_status el = Some "OK" → is_Some (entry_of el).
Proof.
  intros Hok (i & j & row & Hi & Hj & Ho & Hd)%elem_of_positions Hne Hst.
  unfold rows_ok in Hok. rewrite Forall_enumerate_from in Hok.
  destruct (Hok i row Hi) as (o' & Ho' & Hrow). simpl in Ho', Hrow.
  unfold row_ok in Hrow. rewrite Forall_enumerate_from in Hrow.
  destruct (Hrow j el Hj) as (d' & Hd' & He). simpl in Hd', He.
  simplify_eq. by apply He.
Qed.

Lemma writes_keys (ps : list (Location * Location * Element)) :
  Forall (λ p, non_self p → position_ok p → is_Some (entry_of p.2)) ps →
  (writes ps).*1
  = (λ p, cache_key p.1.1 p.1.2) <$> filter (λ p, non_self p ∧ position_ok p) ps.
Proof.
  induction ps as [|[[o d] el] ps IH]; intros Hps; [done|].
  apply Forall_cons in Hps as [Hp Hps].
  rewrite writes_cons, fmap_app, IH, filter_cons by done.
  unfold writes at 1. simpl. unfold non_self, position_ok in *. simpl in *.
  destruct (decide (loc_id o ≠ loc_id d ∧ el_status el = Some "OK")) as [[Hne Hst]|Hno].
  - destruct (Hp Hne Hst) as [e He]. rewrite He. done.
  - done.
Qed.

Lemma failure_records_length (ps : list (Location * Location * Element)) :
  length (failure_records ps)
  = length (filter (λ p, non_self p ∧ ¬ position_ok p) ps).
Proof.
  induction ps as [|[[o d] el] ps IH]; [done|].
  rewrite failure_records_cons, length_app, IH, filter_cons.
  unfold failure_records at 1. simpl. unfold non_self, position_ok. simpl.
  destruct (decide (loc_id o ≠ loc_id d ∧ el_status el ≠ Some "OK")) as [?|?];
    destruct (decide (loc_id o ≠ loc_id d ∧ ¬ el_status el = Some "OK")) as [?|?];
    naive_solver.
Qed.

Lemma size_list_to_set_le (l : list string) :
  size (list_to_set l : gset string) ≤ length l.
Proof.
  induction l as [|x l IH].
  - by rewrite list_to_set_nil, size_empty.
  - rewrite list_to_set_cons, size_union_alt, size_singleton. simpl.
    assert (size (list_to_set l ∖ {[x]} : gset string) ≤ size (list_to_set l : gset string))
      by (apply subseteq_size; set_solver).
    lia.
Qed.

Lemma length_omap_le {A B : Type} (f : A → option B) (l : list A) :
  length (omap f l) ≤ length l.
Proof.
  induction l as [|x l IH]; [done|].
  change (x :: l) with ([x] ++ l). rewrite omap_app, length_app.
  simpl. destruct (f x); simpl; lia.
Qed.

Lemma row_positions_length (o : Location) (dests : list Location) (k : nat)
    (els : list Element) :
  length (row_positions o dests k els) ≤ length els.
Proof.
  unfold row_positions. etrans; [apply length_omap_le|].
  clear. revert k. induction els as [|el els IH]; intros k; [done|].
  simpl. specialize (IH (S k)). lia.
Qed.

Lemma positions_from_length (origins dests : list Location) (k : nat)
    (rows : list Row) :
  Forall (λ row, length (elements_of row) ≤ length dests) rows →
  length (positions_from origins dests k rows) ≤ length rows * length dests.
Proof.
  revert k. induction rows as [|row rows IH]; intros k Hrows; [done|].
  apply Forall_cons in Hrows as [Hrow Hrows].
  unfold positions_from. simpl enumerate_from. rewrite bind_cons, length_app.
  fold (positions_from origins dests (S k) rows). specialize (IH (S k) Hrows).
  simpl. destruct (origins !! k) as [o|]; simpl.
  - pose proof (row_positions_length o dests 0 (elements_of row)). lia.
  - lia.
Qed.

(** X3: when a response has been aggregated, there is one warning line for
    every pair of different ids whose element is not OK, and at most one
    route for every such pair whose element is OK (exactly one when these
    pairs have different keys); routes and warnings together are no more
    than the pairs of different ids, which are no more than origins times
    destinations. *)
Theorem aggregation_accounts (data : MatrixData) (origins dests : list Location)
    (routes : gmap string RouteInfo) (out : list string) :
  process_matrix_response data origins dests = (Return routes, out) →
  let ps := positions data origins dests in
  let written := filter (λ p, non_self p ∧ position_ok p) ps in
  length out = length (filter (λ p, non_self p ∧ ¬ position_ok p) ps)
  ∧ size routes ≤ length written
  ∧ (NoDup ((λ p, cache_key p.1.1 p.1.2) <$> written) → size routes = length written)
  ∧ size routes + length out ≤ length (filter non_self ps)
  ∧ length (filter non_self ps) ≤ length origins * length dests.
Proof.
  intros (Hok & -> & ->)%process_matrix_response_returns ps written.
  assert ((writes ps).*1 = (λ p, cache_key p.1.1 p.1.2) <$> written) as Hkeys.
  { apply writes_keys, Forall_forall. intros [[o d] el] Hin Hne Hst.
    by eapply rows_ok_entry. }
  assert (size (store ∅ (writes ps)) ≤ length written) as Hsize.
  { rewrite <- size_dom, dom_store, dom_empty_L, (right_id_L ∅ (∪)), Hkeys.
    etrans; [apply size_list_to_set_le|]. by rewrite length_fmap. }
  assert (length written + length (filter (λ p, non_self p ∧ ¬ position_ok p) ps)
          = length (filter non_self ps)) as Hsplit.
  { unfold written. clear. induction ps as [|p ps IH]; [done|].
    rewrite !filter_cons.
    destruct (decide (non_self p)), (decide (position_ok p));
      repeat case_decide; simpl; naive_solver lia. }
  split_and!.
  - apply failure_records_length.
  - exact Hsize.
  - intros Hnd. fold ps.
    rewrite <- size_dom, dom_store, dom_empty_L, (right_id_L ∅ (∪)), Hkeys.
    by rewrite size_list_to_set, length_fmap.
  - rewrite failure_records_length. fold ps. fold ps in Hsize. lia.
  - etrans; [apply length_filter|].
    destruct (rows_ok_fits _ _ _ _ Hok) as [Hlen Hrows].
    etrans; [by apply positions_from_length|].
    apply Nat.mul_le_mono_r. destruct Hlen as [->|Hlen]; simpl; lia.
Qed.

Lemma aggregation_accounts_witness :
  let ps := positions Sample.response Sample.three Sample.three in
  process_matrix_response Sample.response Sample.three Sample.three
    = (Return (store ∅ (writes ps)), failure_records ps)
  ∧ size (store ∅ (writes ps)) + length (failure_records ps)
    ≤ length Sample.three * length Sample.three.
Proof.
  intros ps.
  assert (process_matrix_response Sample.response Sample.three Sample.three
          = (Return (store ∅ (writes ps)), failure_records ps)) as Hrun
    by (vm_compute; reflexivity).
  split; [exact Hrun|].
  destruct (aggregation_accounts _ _ _ _ _ Hrun) as (_ & _ & _ & H1 & H2).
  exact (Nat.le_trans _ _ _ H1 H2).
Defined.

(** *** Two writes to one key *)

Lemma lookup_store_last (routes : gmap string RouteInfo)
    (ws : list (string * RouteInfo)) (key : string) :
  store routes ws !! key =
  match last (filter (λ kv, kv.1 = key) ws) with
  | Some kv => Some kv.2
  | None => routes !! key
  end.
Proof.
  induction ws as [|[key' e] ws IH] using rev_ind; [done|].
  rewrite store_snoc, filter_app, filter_cons, filter_nil. simpl.
  destruct (decide (key' = key)) as [->|Hne].
  - rewrite lookup_insert_eq, last_snoc. done.
  - rewrite lookup_insert_ne, app_nil_r by done. done.
Qed.

Lemma writes_filter_key (ps : list (Location * Location * Element)) (key : string) :
  filter (λ kv, kv.1 = key) (writes ps)
  = writes (filter (λ p, non_self p ∧ position_ok p ∧ cache_key p.1.1 p.1.2 = key) ps).
Proof.
  induction ps as [|[[o d] el] ps IH]; [done|].
  rewrite writes_cons, filter_app, IH, filter_cons. clear IH.
  unfold non_self, position_ok. simpl.
  destruct (decide (loc_id o ≠ loc_id d ∧ el_status el = Some "OK"
                    ∧ cache_key o d = key)) as [(Hne & Hst & Hkey)|Hno].
  - rewrite (writes_cons (o, d, el)). f_equal.
    unfold writes. simpl. rewrite decide_True by done.
    destruct (entry_of el) as [e|]; [|done]. simpl.
    by rewrite filter_cons, decide_True.
  - unfold writes at 1. simpl.
    destruct (decide (loc_id o ≠ loc_id d ∧ el_status el = Some "OK")) as [[Hne Hst]|?];
      [|done].
    destruct (entry_of el) as [e|]; [|done]. simpl.
    rewrite filter_cons, decide_False; [done|]. simpl. naive_solver.
Qed.

Lemma writes_last (ps : list (Location * Location * Element)) :
  Forall (λ p, non_self p ∧ position_ok p ∧ is_Some (entry_of p.2)) ps →
  last (writes ps)
  = p ← last ps; e ← entry_of p.2; Some (cache_key p.1.1 p.1.2, e).
Proof.
  induction ps as [|[[o d] el] ps IH] using rev_ind; intros Hps; [done|].
  apply Forall_app in Hps as [_ Hp]. apply Forall_cons in Hp as [Hp _].
  simpl in Hp. destruct Hp as (Hne & Hst & [e He]). unfold non_self, position_ok in *. simpl in *.
  assert (writes [(o, d, el)] = [(cache_key o d, e)]) as Hw.
  { unfold writes. simpl. by rewrite decide_True, He. }
  rewrite writes_app, Hw, !last_snoc. simpl. by rewrite He.
Qed.

(** X4: when two pairs of one response have the same key, the entry kept is
    that of the pair that comes last in the order of the rows and of their
    elements: the entry at a key is the value of the last element with
    status OK among the pairs of different ids with this key, and there is
    none when there is no such pair. *)
Theorem last_write_wins (data : MatrixData) (origins dests : list Location)
    (routes : gmap string RouteInfo) (out : list string) (key : string) :
  process_matrix_response data origins dests = (Return routes, out) →
  routes !! key =
  p ← last (filter (λ p, non_self p ∧ position_ok p ∧ cache_key p.1.1 p.1.2 = key)
              (positions data origins dests));
  entry_of p.2.
Proof.
  intros (Hok & -> & _)%process_matrix_response_returns.
  rewrite lookup_store_last, lookup_empty, writes_filter_key, writes_last.
  - destruct (last _) as [[[o d] el]|]; [|done]. simpl.
    by destruct (entry_of el).
  - apply Forall_forall. intros [[o d] el] (Hp & Hin)%list_elem_of_filter.
    destruct Hp as (Hne & Hst & _). split_and!; [done..|]. simpl.
    by eapply rows_ok_entry.
Qed.

Lemma last_write_wins_witness :
  let ps := positions Sample.colliding_response Sample.two_origins
              Sample.two_destinations in
  process_matrix_response Sample.colliding_response Sample.two_origins
    Sample.two_destinations
    = (Return (store ∅ (writes ps)), failure_records ps)
  ∧ store ∅ (writes ps) !! "a_b_c" = entry_of (Sample.ok_element 30450 1800).
Proof.
  intros ps.
  assert (process_matrix_response Sample.colliding_response Sample.two_origins
            Sample.two_destinations
          = (Return (store ∅ (writes ps)), failure_records ps)) as Hrun
    by (vm_compute; reflexivity).
  split; [exact Hrun|].
  rewrite (last_write_wins _ _ _ _ _ "a_b_c" Hrun). vm_compute. reflexivity.
Defined.

(** ** The keys of the cache *)

(** X5: the key determines the pair when the ids of the origins hold no
    underscore: two pairs with the same key then have the same origin id and
    the same destination id. *)
Theorem cache_key_injective (o d o' d' : Location) :
  has_underscore (loc_id o) = false → has_underscore (loc_id o') = false →
  cache_key o d = cache_key o' d' →
  loc_id o = loc_id o' ∧ loc_id d = loc_id d'.
Proof.
  intros Ho Ho' Hkey. unfold cache_key in Hkey.
  by apply cache_key_split.
Qed.

Lemma cache_key_injective_witness :
  has_underscore (loc_id (Sample.place "a")) = false
  ∧ (cache_key (Sample.place "a") (Sample.place "b_c")
       = cache_key (Sample.place "a") (Sample.place "b_c")
     → loc_id (Sample.place "a") = loc_id (Sample.place "a")
       ∧ loc_id (Sample.place "b_c") = loc_id (Sample.place "b_c")).
Proof.
  split; [reflexivity|].
  exact (cache_key_injective (Sample.place "a") (Sample.place "b_c")
           (Sample.place "a") (Sample.place "b_c") eq_refl eq_refl).
Defined.

(** ** The run as a whole *)

Lemma first_error_None (env : Env) (sqs : list SubQuery) (k : nat) :
  first_error env k sqs = None → completed env k sqs = length sqs.
Proof.
  revert k. induction sqs as [|sq sqs IH]; intros k; simpl; [done|].
  destruct (cell_routes env k sq); [|done]. intros H. by rewrite IH.
Qed.

Lemma first_error_Some (env : Env) (sqs : list SubQuery) (k : nat) (e : exn) :
  first_error env k sqs = Some e → completed env k sqs < length sqs.
Proof.
  revert k. induction sqs as [|sq sqs IH]; intros k; simpl; [done|].
  destruct (cell_routes env k sq); [|lia]. intros H%IH. lia.
Qed.

Lemma first_error_all_return (env : Env) (sqs : list SubQuery) (k : nat) :
  (∀ i sq, sqs !! i = Some sq → ∃ routes, cell_routes env (k + i) sq = Return routes) →
  first_error env k sqs = None.
Proof.
  revert k. induction sqs as [|sq sqs IH]; intros k Hall; simpl; [done|].
  destruct (Hall 0 sq eq_refl) as [routes Hr]. rewrite Nat.add_0_r in Hr.
  rewrite Hr. apply IH. intros i sq' Hi.
  destruct (Hall (S i) sq' Hi) as [routes' Hr']. exists routes'.
  rewrite <- Hr'. f_equal. lia.
Qed.

Lemma first_error_at (env : Env) (sqs : list SubQuery) (k j : nat)
    (sq : SubQuery) (e : exn) :
  sqs !! j = Some sq →
  (∀ i sq', i < j → sqs !! i = Some sq' →
     ∃ routes, cell_routes env (k + i) sq' = Return routes) →
  cell_routes env (k + j) sq = Raised e →
  first_error env k sqs = Some e ∧ completed env k sqs = j.
Proof.
  revert k j. induction sqs as [|sq0 sqs IH]; intros k j Hj Hbefore Hat; [done|].
  simpl. destruct j as [|j].
  - injection Hj as ->. rewrite Nat.add_0_r in Hat. by rewrite Hat.
  - destruct (Hbefore 0 sq0) as [routes Hr]; [lia|done|].
    rewrite Nat.add_0_r in Hr. rewrite Hr.
    destruct (IH (S k) j Hj) as [-> ->]; [| |done].
    + intros i sq' Hi Hsq'. destruct (Hbefore (S i) sq') as [routes' Hr']; [lia|done|].
      exists routes'. rewrite <- Hr'. f_equal. lia.
    + rewrite <- Hat. f_equal. lia.
Qed.

(** The run with the library, the credential and the locations: the state
    after the requests decides how it ends. *)
Lemma script_trace (env : Env) (locations : list Location) :
  requests_installed env = true → GOOGLE_API_KEY env ≠ EmptyString →
  locations_json env = Return locations →
  let qs := sub_queries locations BATCH_SIZE in
  let r := script env initial_state in
  let j := completed env 0 qs in
  cache r.2 = merged env 0 qs ∅
  ∧ request_count r.2 = j ∧ sleeps r.2 = j
  ∧ match first_error env 0 qs with
    | Some e =>
        r.1 = Raised e ∧ http_log r.2 = params_of env <$> take (S j) qs
        ∧ routes_cache_file r.2 = None
    | None =>
        http_log r.2 = params_of env <$> qs
        ∧ if routes_cache_writable env then
            r.1 = Return tt ∧ routes_cache_file r.2 = Some (cache r.2)
            ∧ ("API requests made: " +:+ pretty j) ∈ stdout r.2
          else r.1 = Raised OSError ∧ routes_cache_file r.2 = None
    end.
Proof.
  intros Hreq Hkey Hloc qs r j. unfold r. rewrite script_installed by done.
  destruct (main_counts env locations initial_state Hkey Hloc)
    as (s0 & Hlog & Hsleeps & Hcache & Hcount & Hfile & Hmain).
  simpl in Hlog, Hsleeps, Hfile, Hmain.
  rewrite request_all_sub_queries in Hmain. fold qs in Hmain.
  destruct (for_batches env qs s0) as (Hmerged & Hfile' & _).
  destruct (for_batches_trace env qs s0) as (Hret & Hrc & Hsl & Hhttp).
  rewrite Hlog in Hmerged, Hret, Hrc, Hsl, Hhttp. simpl in Hmerged, Hret, Hrc, Hsl, Hhttp.
  rewrite Hcache in Hmerged. rewrite Hcount in Hrc. rewrite Hsleeps in Hsl.
  rewrite Hfile in Hfile'. fold j in Hrc, Hsl, Hhttp.
  rewrite Hret in Hmain.
  destruct (first_error env 0 qs) as [e|] eqn:Herr.
  - rewrite Hmain. simpl. by rewrite Hmerged, Hrc, Hsl, Hhttp, Hfile'.
  - assert (j = length qs) as Hj by (by apply first_error_None).
    rewrite Hj, firstn_all in Hhttp.
    destruct (routes_cache_writable env).
    + destruct Hmain as (Hr & Hc & Hf & Hl & Hs & Hn & Hline).
      rewrite Hc, Hl, Hs, Hn, Hf, Hr, Hmerged, Hrc, Hsl, Hhttp.
      rewrite Hrc in Hline. done.
    + rewrite Hmain. simpl. by rewrite Hmerged, Hrc, Hsl, Hhttp, Hfile'.
Qed.

(** X6: the requests of a run are those of the sub-queries, in their
    order, up to the point the run has reached; the script has slept once
    after every request it has counted, and it has made as many requests as
    it has counted, or one more when the last one raised.  A run that
    returns has made one request per sub-query, [ceil(N/10)^2] in all, and
    says so in its summary. *)
Theorem requests_in_order (env : Env) (locations : list Location) :
  requests_installed env = true → GOOGLE_API_KEY env ≠ EmptyString →
  locations_json env = Return locations →
  let qs := sub_queries locations BATCH_SIZE in
  let r := script env initial_state in
  http_log r.2 `prefix_of` (params_of env <$> qs)
  ∧ sleeps r.2 = request_count r.2
  ∧ request_count r.2 ≤ length (http_log r.2) ≤ S (request_count r.2)
  ∧ (r.1 = Return tt →
     http_log r.2 = params_of env <$> qs
     ∧ request_count r.2
       = ceil_div (length locations) BATCH_SIZE * ceil_div (length locations) BATCH_SIZE
     ∧ ("API requests made: " +:+ pretty (request_count r.2)) ∈ stdout r.2).
Proof.
  intros Hreq Hkey Hloc qs r.
  destruct (script_trace env locations Hreq Hkey Hloc) as (_ & Hrc & Hsl & Hend).
  fold qs r in Hrc, Hsl, Hend. rewrite Hrc, Hsl.
  destruct (first_error env 0 qs) as [e|] eqn:Herr.
  - destruct Hend as (Hr & Hlog & _). apply first_error_Some in Herr.
    rewrite Hlog, length_fmap, length_take. split_and!; [|done|lia|lia|].
    + rewrite fmap_take. apply prefix_take.
    + intros Hret. congruence.
  - destruct Hend as (Hlog & Hend). apply first_error_None in Herr.
    rewrite Hlog, length_fmap, Herr. split_and!; [done|done|lia|lia|].
    intros Hret. destruct (routes_cache_writable env); [|destruct Hend; congruence].
    destruct Hend as (_ & _ & Hline). split_and!; [done| |by rewrite <- Herr].
    unfold qs. apply sub_queries_length. unfold BATCH_SIZE. lia.
Qed.

Lemma requests_in_order_witness :
  let r := script Sample.env_degraded initial_state in
  GOOGLE_API_KEY Sample.env_degraded ≠ EmptyString
  ∧ http_log r.2 `prefix_of`
      (params_of Sample.env_degraded <$> sub_queries Sample.eleven BATCH_SIZE)
  ∧ sleeps r.2 = request_count r.2
  ∧ r.1 = Return tt ∧ request_count r.2 = 4.
Proof.
  intros r.
  assert (requests_installed Sample.env_degraded = true) as Hreq by reflexivity.
  assert (GOOGLE_API_KEY Sample.env_degraded ≠ EmptyString) as Hkey by discriminate.
  assert (locations_json Sample.env_degraded = Return Sample.eleven) as Hloc
    by reflexivity.
  assert (r.1 = Return tt) as Hret by (vm_compute; reflexivity).
  pose proof (requests_in_order Sample.env_degraded Sample.eleven Hreq Hkey Hloc)
    as (H1 & H2 & _ & H4).
  destruct (H4 Hret) as (_ & Hcount & _).
  split_and!; [exact Hkey | exact H1 | exact H2 | exact Hret |].
  unfold r. rewrite Hcount. vm_compute. reflexivity.
Defined.

Lemma first_error_None_all (env : Env) (sqs : list SubQuery) (k : nat) :
  first_error env k sqs = None →
  ∀ i sq, sqs !! i = Some sq → ∃ routes, cell_routes env (k + i) sq = Return routes.
Proof.
  revert k. induction sqs as [|sq0 sqs IH]; intros k Herr i sq Hi; [done|].
  simpl in Herr. destruct (cell_routes env k sq0) as [routes|e] eqn:Hcell; [|done].
  destruct i as [|i].
  - injection Hi as <-. rewrite Nat.add_0_r. by exists routes.
  - destruct (IH (S k) Herr i sq Hi) as [routes' Hr]. exists routes'.
    rewrite <- Hr. f_equal. lia.
Qed.

(** X7: the cache file is written after the last request and not before.
    Whatever the state it starts from, a run that has changed the file had
    the library and the credential, has read the locations, and has made,
    counted and aggregated without an exception the request of every
    sub-query; and a run that returns has written the whole cache into the
    file. *)
Theorem cache_file_written_last (env : Env) (s : State) :
  let r := script env s in
  (routes_cache_file r.2 ≠ routes_cache_file s →
     requests_installed env = true ∧ GOOGLE_API_KEY env ≠ EmptyString
     ∧ ∃ locations,
         locations_json env = Return locations
         ∧ let qs := sub_queries locations BATCH_SIZE in
           (∀ i sq, qs !! i = Some sq →
              ∃ routes, cell_routes env (length (http_log s) + i) sq = Return routes)
           ∧ http_log r.2 = http_log s ++ (params_of env <$> qs)
           ∧ request_count r.2 = length qs)
  ∧ (r.1 = Return tt → routes_cache_file r.2 = Some (cache r.2)).
Proof.
  intros r. unfold r.
  destruct (requests_installed env) eqn:Hreq.
  2:{ destruct (script_not_installed env s Hreq) as (-> & _ & _ & ->). done. }
  rewrite script_installed by done.
  destruct (decide (GOOGLE_API_KEY env = EmptyString)) as [Hkey|Hkey].
  { destruct (main_no_key env s Hkey) as (-> & _ & _ & ->). done. }
  destruct (locations_json env) as [locations|e] eqn:Hloc.
  2:{ destruct (main_load_fails env e s Hkey Hloc) as (-> & _ & _ & ->). done. }
  destruct (main_counts env locations s Hkey Hloc)
    as (s0 & Hlog & _ & _ & Hcount & Hfile & Hmain).
  simpl in Hmain. rewrite request_all_sub_queries in Hmain.
  set (qs := sub_queries locations BATCH_SIZE) in *.
  destruct (for_batches env qs s0) as (_ & Hfile' & _).
  destruct (for_batches_trace env qs s0) as (Hret & Hrc & _ & Hhttp).
  rewrite Hlog in Hret, Hrc, Hhttp. rewrite Hcount in Hrc. simpl in Hrc, Hfile'.
  rewrite Hret in Hmain.
  destruct (first_error env (length (http_log s)) qs) as [e|] eqn:Herr.
  { rewrite Hmain. simpl. split; [|done]. intros Hne. congruence. }
  rewrite (first_error_None _ _ _ Herr), firstn_all in Hhttp.
  rewrite (first_error_None _ _ _ Herr) in Hrc.
  destruct (routes_cache_writable env).
  - destruct Hmain as (Hr & Hc & Hf & Hl & _ & Hn & _). split.
    + intros _. split_and!; [done..|]. exists locations. split_and!; [done| | |].
      * by apply first_error_None_all.
      * by rewrite Hl, Hhttp.
      * by rewrite Hn, Hrc.
    + intros _. by rewrite Hf, Hc.
  - rewrite Hmain. simpl. split; [|done]. intros Hne. congruence.
Qed.

Lemma cache_file_written_last_witness :
  let r := script Sample.env_three initial_state in
  r.1 = Return tt
  ∧ routes_cache_file r.2 = Some (cache r.2)
  ∧ request_count r.2 = 1.
Proof.
  intros r.
  assert (r.1 = Return tt) as Hret by (vm_compute; reflexivity).
  destruct (cache_file_written_last Sample.env_three initial_state) as [Hlast Hfile].
  specialize (Hfile Hret).
  destruct Hlast as (_ & _ & locations & Hloc & _ & _ & Hcount).
  { unfold r in Hfile. rewrite Hfile. discriminate. }
  injection Hloc as <-.
  split_and!; [exact Hret | exact Hfile |].
  unfold r. rewrite Hcount. vm_compute. reflexivity.
Defined.

(** X8: with the library and the credential, a locations file that cannot
    be read ends the run with the exception of the read: no request is made
    and the cache file is left as it was. *)
Theorem unreadable_locations_abort (env : Env) (e : exn) (s : State) :
  requests_installed env = true → GOOGLE_API_KEY env ≠ EmptyString →
  locations_json env = Raised e →
  let r := script env s in
  r.1 = Raised e ∧ http_log r.2 = http_log s
  ∧ routes_cache_file r.2 = routes_cache_file s.
Proof.
  intros Hreq Hkey Hloc r. unfold r. rewrite script_installed by done.
  destruct (main_load_fails env e s Hkey Hloc) as (Hr & Hlog & _ & Hfile). done.
Qed.

Lemma unreadable_locations_abort_witness :
  let r := script Sample.env_no_locations initial_state in
  GOOGLE_API_KEY Sample.env_no_locations ≠ EmptyString
  ∧ r.1 = Raised OSError ∧ http_log r.2 = [] ∧ routes_cache_file r.2 = None.
Proof.
  intros r. split; [discriminate|].
  apply (unreadable_locations_abort Sample.env_no_locations OSError initial_state);
    [reflexivity | discriminate | reflexivity].
Defined.

(** X9: without any location the script makes no request, whatever the
    service would answer, writes an empty cache and reports no deficit; when
    the cache file cannot be written it ends with that exception. *)
Theorem empty_registry (env : Env) :
  requests_installed env = true → GOOGLE_API_KEY env ≠ EmptyString →
  locations_json env = Return [] →
  let r := script env initial_state in
  http_log r.2 = [] ∧ cache r.2 = ∅ ∧ sleeps r.2 = 0
  ∧ if routes_cache_writable env then
      r.1 = Return tt ∧ routes_cache_file r.2 = Some ∅
      ∧ last (stdout r.2) = Some ("Saved to: " +:+ ROUTES_CACHE_FILE env)
    else r.1 = Raised OSError ∧ routes_cache_file r.2 = None.
Proof.
  intros Hreq Hkey Hloc r.
  destruct (script_trace env [] Hreq Hkey Hloc) as (Hcache & _ & Hsl & Hend).
  fold r in Hcache, Hsl, Hend. simpl in Hcache, Hsl, Hend.
  destruct Hend as (Hlog & Hend). split_and!; [done..|].
  destruct (routes_cache_writable env) eqn:Hwrite; [|done].
  destruct Hend as (Hr & Hfile & _). rewrite Hcache in Hfile.
  split_and!; [done..|].
  unfold r. rewrite script_installed by done.
  destruct (main_result env [] initial_state Hkey Hloc) as (s0 & _ & Hc0 & _ & _ & Hmain).
  simpl in Hmain. rewrite Hwrite in Hmain.
  destruct Hmain as (_ & Hc & _ & _ & _ & Hsaved).
  apply Hsaved. rewrite Hc0, map_size_empty.
  unfold expected_routes. simpl. lia.
Qed.

Lemma empty_registry_witness :
  let r := script Sample.env_empty initial_state in
  GOOGLE_API_KEY Sample.env_empty ≠ EmptyString
  ∧ http_log r.2 = [] ∧ r.1 = Return tt ∧ routes_cache_file r.2 = Some ∅.
Proof.
  intros r. split; [discriminate|].
  destruct (empty_registry Sample.env_empty) as (Hlog & _ & _ & Hr & Hfile & _);
    [reflexivity | discriminate | reflexivity |].
  split_and!; [exact Hlog | exact Hr | exact Hfile].
Defined.

(** *** No more routes than pairs *)

Lemma cell_routes_dom (env : Env) (k : nat) (sq : SubQuery)
    (routes : gmap string RouteInfo) (key : string) :
  cell_routes env k sq = Return routes → key ∈ dom routes →
  ∃ o d, o ∈ batch_origins sq ∧ d ∈ batch_destinations sq
         ∧ loc_id o ≠ loc_id d ∧ key = cache_key o d.
Proof.
  unfold cell_routes.
  destruct (service env k _) as [|status_code body]; [done|].
  destruct (response_ok status_code); [|by intros [= <-] ?%elem_of_dom%is_Some_None].
  destruct body as [data|]; [|done].
  case_decide; [|by intros [= <-] ?%elem_of_dom%is_Some_None].
  destruct (process_matrix_response data _ _) as [r out] eqn:Hrun. simpl.
  intros -> Hin.
  apply process_matrix_response_returns in Hrun as (_ & -> & _).
  rewrite dom_store, dom_empty_L, (right_id_L ∅ (∪)) in Hin.
  apply elem_of_list_to_set, list_elem_of_fmap in Hin as ([key' e] & -> & Hin).
  apply elem_of_writes in Hin as (o & d & el & Hpos & Hne & _ & _ & ->).
  apply elem_of_positions in Hpos as (i & j & row & _ & _ & Ho & Hd).
  exists o, d. split_and!; [by eapply list_elem_of_lookup_2..|done|done].
Qed.

Lemma merged_dom_subseteq (env : Env) (locations : list Location)
    (sqs : list SubQuery) (k : nat) (c : gmap string RouteInfo) :
  Forall (λ sq, batch_origins sq ⊆ locations ∧ batch_destinations sq ⊆ locations) sqs →
  dom c ⊆ list_to_set ((λ p, cache_key p.1 p.2) <$> non_self_pairs locations) →
  dom (merged env k sqs c)
  ⊆ list_to_set ((λ p, cache_key p.1 p.2) <$> non_self_pairs locations).
Proof.
  revert k c. induction sqs as [|sq sqs IH]; intros k c Hsqs Hc; [done|].
  apply Forall_cons in Hsqs as [[Ho Hd] Hsqs]. simpl.
  destruct (cell_routes env k sq) as [routes|e] eqn:Hcell; [|done].
  apply IH; [done|]. rewrite dom_union. apply union_least; [|done].
  intros key Hin.
  destruct (cell_routes_dom env k sq routes key Hcell Hin)
    as (o & d & Hio & Hid & Hne & ->).
  apply elem_of_list_to_set, list_elem_of_fmap. exists (o, d). split; [done|].
  apply elem_of_non_self_pairs. split_and!; [by apply Ho|by apply Hd|done].
Qed.

Lemma non_self_pairs_length_le (locations : list Location) :
  length (non_self_pairs locations) ≤ length locations * (length locations - 1).
Proof.
  unfold non_self_pairs.
  assert (∀ l, l ⊆ locations →
            length (filter (λ p : Location * Location, loc_id p.1 ≠ loc_id p.2)
                      (list_prod l locations))
            ≤ length l * (length locations - 1)) as Hgen.
  { induction l as [|x l IH]; intros Hsub; [done|].
    simpl list_prod. rewrite filter_app, length_app.
    assert (length (filter (λ p : Location * Location, loc_id p.1 ≠ loc_id p.2)
                      (map (λ y, (x, y)) locations))
            ≤ length locations - 1) as Hx.
    { assert (x ∈ locations) as Hin by set_solver.
      pose proof (length_filter_lt (λ d, loc_id x ≠ loc_id d) locations x Hin) as Hlt.
      assert (length (filter (λ p : Location * Location, loc_id p.1 ≠ loc_id p.2)
                        (map (λ y, (x, y)) locations))
              = length (filter (λ d, loc_id x ≠ loc_id d) locations)) as ->.
      { clear. induction locations as [|d ds IHd]; [done|].
        simpl map. rewrite !filter_cons. simpl.
        destruct (decide (loc_id x ≠ loc_id d)); simpl; by rewrite IHd. }
      assert (length (filter (λ d, loc_id x ≠ loc_id d) locations) < length locations)
        by (apply Hlt; by intros ?).
      lia. }
    assert (l ⊆ locations) as Hl by set_solver. specialize (IH Hl). simpl. lia. }
  by apply Hgen.
Qed.

(** X10: whatever the service answers, the cache never holds more routes
    than the [N * (N - 1)] that the script expects, so that the deficit of
    its summary is never negative: every key of the cache is the key of an
    ordered pair of locations with different ids. *)
Theorem cached_at_most_expected (env : Env) (locations : list Location) :
  requests_installed env = true → GOOGLE_API_KEY env ≠ EmptyString →
  locations_json env = Return locations →
  let r := script env initial_state in
  (∀ key, key ∈ dom (cache r.2) →
     ∃ o d, o ∈ locations ∧ d ∈ locations ∧ loc_id o ≠ loc_id d
            ∧ key = cache_key o d)
  ∧ (Z.of_nat (size (cache r.2)) ≤ expected_routes (length locations))%Z.
Proof.
  intros Hreq Hkey Hloc r.
  destruct (script_trace env locations Hreq Hkey Hloc) as (Hcache & _).
  fold r in Hcache.
  assert (dom (cache r.2)
          ⊆ list_to_set ((λ p, cache_key p.1 p.2) <$> non_self_pairs locations))
    as Hsub.
  { rewrite Hcache. apply merged_dom_subseteq; [|by rewrite dom_empty_L].
    apply Forall_forall. intros sq (rc & cc & _ & _ & ->)%elem_of_sub_queries;
      [|unfold BATCH_SIZE; lia].
    simpl. split; intros o Ho; by eapply elem_of_slice. }
  split.
  - intros key Hin. apply Hsub in Hin.
    apply elem_of_list_to_set, list_elem_of_fmap in Hin as ([o d] & -> & Hin).
    apply elem_of_non_self_pairs in Hin as (Ho & Hd & Hne). eauto 10.
  - apply subseteq_size in Hsub. rewrite size_dom in Hsub.
    pose proof (size_list_to_set_le
                  ((λ p, cache_key p.1 p.2) <$> non_self_pairs locations)) as Hle.
    rewrite length_fmap in Hle.
    pose proof (non_self_pairs_length_le locations) as Hpairs.
    unfold expected_routes. destruct (length locations) as [|n]; [simpl in *; lia|].
    nia.
Qed.

Lemma cached_at_most_expected_witness :
  let r := script Sample.env_degraded initial_state in
  GOOGLE_API_KEY Sample.env_degraded ≠ EmptyString
  ∧ (Z.of_nat (size (cache r.2)) ≤ expected_routes (length Sample.eleven))%Z.
Proof.
  intros r. split; [discriminate|].
  destruct (cached_at_most_expected Sample.env_degraded Sample.eleven) as [_ H];
    [reflexivity | discriminate | reflexivity |].
  exact H.
Defined.

(** *** The first exception *)

Lemma merged_take (env : Env) (sqs : list SubQuery) (k : nat)
    (c : gmap string RouteInfo) :
  merged env k sqs c = merged env k (take (completed env k sqs) sqs) c.
Proof.
  revert k c. induction sqs as [|sq sqs IH]; intros k c; [done|].
  simpl. destruct (cell_routes env k sq) as [routes|e] eqn:Hcell; [|done].
  simpl. rewrite Hcell. apply IH.
Qed.

(** X11: the first request whose handling raises, be it a failed
    connection, a body that is not JSON or a response that the aggregation
    cannot read, ends the run with that exception: it is the last request
    made, the counter and the pauses stand at the number of requests before
    it, and the routes that those requests brought, still in the
    dictionary, never reach the cache file. *)
Theorem first_exception_ends_run (env : Env) (locations : list Location)
    (k : nat) (sq : SubQuery) (e : exn) :
  requests_installed env = true → GOOGLE_API_KEY env ≠ EmptyString →
  locations_json env = Return locations →
  let qs := sub_queries locations BATCH_SIZE in
  qs !! k = Some sq →
  (∀ i sq', i < k → qs !! i = Some sq' →
     ∃ routes, cell_routes env i sq' = Return routes) →
  cell_routes env k sq = Raised e →
  let r := script env initial_state in
  r.1 = Raised e
  ∧ http_log r.2 = params_of env <$> take (S k) qs
  ∧ request_count r.2 = k ∧ sleeps r.2 = k
  ∧ cache r.2 = merged env 0 (take k qs) ∅
  ∧ routes_cache_file r.2 = None.
Proof.
  intros Hreq Hkey Hloc qs Hk Hbefore Hat r.
  destruct (first_error_at env qs 0 k sq e Hk Hbefore Hat) as [Herr Hdone].
  destruct (script_trace env locations Hreq Hkey Hloc) as (Hcache & Hcount & Hsl & Hend).
  fold qs r in Hcache, Hcount, Hsl, Hend.
  rewrite Herr, Hdone in Hend. destruct Hend as (Hr & Hlog & Hfile).
  rewrite Hdone in Hcount, Hsl.
  split_and!; [done..| |done].
  rewrite Hcache, merged_take. by rewrite Hdone.
Qed.

Lemma first_exception_ends_run_witness :
  let r := script Sample.env_offline initial_state in
  GOOGLE_API_KEY Sample.env_offline ≠ EmptyString
  ∧ r.1 = Raised RequestException ∧ length (http_log r.2) = 2
  ∧ request_count r.2 = 1 ∧ routes_cache_file r.2 = None.
Proof.
  intros r.
  assert (requests_installed Sample.env_offline = true) as Hreq by reflexivity.
  assert (GOOGLE_API_KEY Sample.env_offline ≠ EmptyString) as Hkey by discriminate.
  assert (locations_json Sample.env_offline = Return Sample.eleven) as Hloc
    by reflexivity.
  assert (sub_queries Sample.eleven BATCH_SIZE !! 1
          = Some (cell Sample.eleven (0, 10) (10, 11)))
    as Hk by (vm_compute; reflexivity).
  assert (cell_routes Sample.env_offline 1 (cell Sample.eleven (0, 10) (10, 11))
          = Raised RequestException) as Hat by (vm_compute; reflexivity).
  assert (∀ i sq', i < 1 → sub_queries Sample.eleven BATCH_SIZE !! i = Some sq' →
            ∃ routes, cell_routes Sample.env_offline i sq' = Return routes)
    as Hbefore.
  { intros i sq' Hi Hsq. destruct i as [|i]; [|lia].
    assert (sub_queries Sample.eleven BATCH_SIZE !! 0
            = Some (cell Sample.eleven (0, 10) (0, 10))) as H0
      by (vm_compute; reflexivity).
    rewrite H0 in Hsq. injection Hsq as <-. unfold cell_routes.
    change (service Sample.env_offline 0 _)
      with (Response 200 (Some (Sample.grid 10 10))).
    change (response_ok 200) with true. cbv beta iota.
    rewrite decide_True by reflexivity.
    apply fits_readable_returns; [|apply grid_readable].
    apply grid_fits; vm_compute; lia. }
  split; [exact Hkey|].
  pose proof (first_exception_ends_run Sample.env_offline Sample.eleven 1
                (cell Sample.eleven (0, 10) (10, 11)) RequestException
                Hreq Hkey Hloc Hk Hbefore Hat) as H.
  destruct H as (Hr & Hlog & Hcount & _ & _ & Hfile).
  split_and!; [exact Hr | | exact Hcount | exact Hfile].
  unfold r. rewrite Hlog. vm_compute. reflexivity.
Defined.

(** X12: when every request is answered and the cache file cannot be opened
    for writing, the script has made every one of its requests before it
    finds out: it ends with the exception of [open], with exit status 1,
    and the routes it fetched are lost. *)
Theorem unwritable_cache_file (env : Env) (locations : list Location) :
  requests_installed env = true → GOOGLE_API_KEY env ≠ EmptyString →
  locations_json env = Return locations →
  answered env locations → routes_cache_writable env = false →
  let qs := sub_queries locations BATCH_SIZE in
  let r := script env initial_state in
  r.1 = Raised OSError ∧ exit_status r.1 = 1%Z
  ∧ http_log r.2 = params_of env <$> qs
  ∧ request_count r.2 = length qs
  ∧ routes_cache_file r.2 = None.
Proof.
  intros Hreq Hkey Hloc Hans Hwrite qs r.
  assert (first_error env 0 qs = None) as Herr.
  { apply first_error_all_return. intros i sq Hi. by eapply answered_cell. }
  destruct (script_trace env locations Hreq Hkey Hloc) as (_ & Hcount & _ & Hend).
  fold qs r in Hcount, Hend.
  rewrite Herr, Hwrite in Hend. destruct Hend as (Hlog & Hr & Hfile).
  rewrite (first_error_None _ _ _ Herr) in Hcount.
  rewrite Hr. split_and!; done.
Qed.

Lemma answered_read_only : answered Sample.env_read_only Sample.three.
Proof.
  intros k sq Hsq. destruct k as [|k]; [|vm_compute in Hsq; discriminate].
  assert (sub_queries Sample.three BATCH_SIZE !! 0
          = Some (cell Sample.three (0, 3) (0, 3))) as H0
    by (vm_compute; reflexivity).
  rewrite H0 in Hsq. injection Hsq as <-.
  exists 200%Z, (Some (Sample.grid 3 3)). split; [reflexivity|].
  intros _. eexists. split; [reflexivity|]. intros _.
  split; [apply grid_fits; vm_compute; lia|apply grid_readable].
Qed.

Lemma unwritable_cache_file_witness :
  let r := script Sample.env_read_only initial_state in
  GOOGLE_API_KEY Sample.env_read_only ≠ EmptyString
  ∧ r.1 = Raised OSError ∧ length (http_log r.2) = 1
  ∧ request_count r.2 = 1 ∧ routes_cache_file r.2 = None.
Proof.
  intros r.
  assert (requests_installed Sample.env_read_only = true) as Hreq by reflexivity.
  assert (GOOGLE_API_KEY Sample.env_read_only ≠ EmptyString) as Hkey by discriminate.
  assert (locations_json Sample.env_read_only = Return Sample.three) as Hloc
    by reflexivity.
  assert (routes_cache_writable Sample.env_read_only = false) as Hwrite
    by reflexivity.
  split; [exact Hkey|].
  pose proof (unwritable_cache_file Sample.env_read_only Sample.three
                Hreq Hkey Hloc answered_read_only Hwrite) as H.
  destruct H as (Hr & _ & Hlog & Hcount & Hfile).
  unfold r. split_and!; [exact Hr | | | exact Hfile].
  - rewrite Hlog. vm_compute. reflexivity.
  - rewrite Hcount. vm_compute. reflexivity.
Defined.

#[local] Opaque PyFloat.int_truediv PyFloat.round1.

(** * The response as any JSON value *)

Lemma is_OK_true (v : option json) : is_OK v = true ↔ v = Some (JStr "OK").
Proof.
  destruct v as [[]|]; simpl; try (split; [done|by intros [=]]).
  rewrite bool_decide_eq_true. split; [by intros ->|by intros [= ->]].
Qed.

Lemma is_OK_str (status : option string) :
  is_OK (JStr <$> status) = bool_decide (status = Some "OK").
Proof.
  destruct status as [s|]; simpl; [|done].
  apply bool_decide_ext. split; [by intros ->|by intros [= ->]].
Qed.

Lemma field_Some {A : Type} (shape : json → option A)
    (items : list (string * json)) (key : string) (a : option A) :
  field shape items key = Some a →
  match lookup_item key items with
  | None => a = None
  | Some v => ∃ x, a = Some x ∧ shape v = Some x
  end.
Proof.
  unfold field. destruct (lookup_item key items) as [v|]; [|by intros [= <-]].
  destruct (shape v) as [x|]; [|done]. intros [= <-]. by exists x.
Qed.

Lemma field_str (items : list (string * json)) (key : string) (a : option string) :
  field as_str items key = Some a → lookup_item key items = JStr <$> a.
Proof.
  intros H%field_Some. destruct (lookup_item key items) as [v|]; [|by subst].
  destruct H as (x & -> & Hv). by destruct v; simplify_eq/=.
Qed.

Lemma field_int (items : list (string * json)) (key : string) (a : option Z) :
  field as_int items key = Some a → lookup_item key items = JInt <$> a.
Proof.
  intros H%field_Some. destruct (lookup_item key items) as [v|]; [|by subst].
  destruct H as (x & -> & Hv). by destruct v; simplify_eq/=.
Qed.

Lemma as_measure_Some (v : json) (m : Measure) :
  as_measure v = Some m →
  ∃ items, v = JDict items ∧ lookup_item "value" items = JInt <$> value m.
Proof.
  destruct v as [| | | | | |items]; try done. simpl.
  destruct (field as_int items "value") as [a|] eqn:Ha; [|done].
  intros [= <-]. exists items. split; [done|]. by apply field_int.
Qed.

Section Refinement.

Variable repr : json → string.

(** Reading one measure of an element. *)
Lemma subscript_measure (items : list (string * json)) (key : string)
    (m : option Measure) :
  field as_measure items key = Some m →
  subscript (JDict items) key ≫= (λ w, subscript w "value")
  = match m with
    | Some m =>
        match value m with
        | Some z => mret (JInt z)
        | None => throw (KeyError "value")
        end
    | None => throw (KeyError key)
    end.
Proof.
  intros H%field_Some. simpl. destruct (lookup_item key items) as [w|].
  - destruct H as (x & -> & (items' & -> & Hv)%as_measure_Some).
    simpl. rewrite Hv. by destruct (value x).
  - by subst.
Qed.

Lemma as_element_Some (v : json) (el : Element) :
  as_element v = Some el →
  ∃ items, v = JDict items
    ∧ lookup_item "status" items = JStr <$> el_status el
    ∧ field as_measure items "distance" = Some (el_distance el)
    ∧ field as_measure items "duration" = Some (el_duration el).
Proof.
  destruct v as [| | | | | |items]; try done. simpl.
  destruct (field as_str items "status") as [st|] eqn:Hst; [|done].
  destruct (field as_measure items "distance") as [di|] eqn:Hdi; [|done].
  destruct (field as_measure items "duration") as [du|] eqn:Hdu; [|done].
  intros [= <-]. exists items. simpl. split_and!; [done| |done..].
  by apply field_str.
Qed.

Lemma json_routes_bind {A : Type} (m : Printing A)
    (f : A → Printing (gmap string RouteInfo)) :
  json_routes (m ≫= f) = m ≫= (λ a, json_routes (f a)).
Proof.
  rewrite !Printing_bind_eq. destruct m as [[a|e] out]; [|done].
  unfold json_routes. simpl. by destruct (f a) as [[]].
Qed.

Lemma Printing_bind_ext {A B : Type} (m : Printing A) (f g : A → Printing B) :
  (∀ a, f a = g a) → m ≫= f = m ≫= g.
Proof.
  intros H. rewrite !Printing_bind_eq. destruct m as [[a|e] out]; [|done].
  by rewrite H.
Qed.

Lemma json_routes_ret (routes : gmap string RouteInfo) :
  json_routes (mret routes) = mret (json_route <$> routes).
Proof. done. Qed.

Lemma warning_line_json_str (o d : Location) (status : option string) (el : Element) :
  el_status el = status →
  warning_line_json repr o d (JStr <$> status) = warning_line o d el.
Proof. intros <-. unfold warning_line_json, warning_line. by destruct (el_status el). Qed.

Lemma process_element_json_refines (o : Location) (dests : list Location)
    (routes : gmap string RouteInfo) (j : nat) (v : json) (el : Element) :
  as_element v = Some el →
  process_element_json repr o dests (json_route <$> routes) (j, v)
  = json_routes (process_element o dests routes (j, el)).
Proof.
  intros (items & -> & Hst & Hdi & Hdu)%as_element_Some.
  unfold process_element_json, process_element.
  rewrite json_routes_bind. apply Printing_bind_ext. intros d.
  case_decide as Hid; [done|].
  change (dict_get (JDict items) "status") with (mret (M:=Printing) (lookup_item "status" items)).
  rewrite Hst. rewrite Printing_bind_eq. cbn [fst snd mret Printing_ret app].
  rewrite is_OK_str.
  destruct (decide (el_status el = Some "OK")) as [Hok|Hok].
  2:{ rewrite bool_decide_false by done.
      by rewrite (warning_line_json_str o d _ el eq_refl). }
  rewrite bool_decide_true by done.
  apply field_Some in Hdi, Hdu. simpl.
  destruct (lookup_item "distance" items) as [w|], (el_distance el) as [di|];
    try (by destruct Hdi as (? & ? & ?)); try done.
  destruct Hdi as (? & [= <-] & (items1 & -> & Hv1)%as_measure_Some).
  simpl. rewrite Hv1.
  destruct (value di) as [distance_m|]; [|done]. simpl.
  destruct (lookup_item "duration" items) as [w|], (el_duration el) as [du|];
    try (by destruct Hdu as (? & ? & ?)); try done.
  destruct Hdu as (? & [= <-] & (items2 & -> & Hv2)%as_measure_Some).
  simpl. rewrite Hv2.
  destruct (value du) as [duration_s|]; [|done]. simpl.
  unfold truediv. destruct (PyFloat.int_truediv distance_m 1000) as [km|]; [|done].
  unfold json_routes. simpl. by rewrite fmap_insert.
Qed.

Lemma json_routes_bind_l {B : Type} (m : Printing (gmap string RouteInfo))
    (g : gmap string JsonRouteInfo → Printing B) :
  json_routes m ≫= g = m ≫= (λ routes, g (json_route <$> routes)).
Proof. rewrite !Printing_bind_eq. by destruct m as [[routes|e] out]. Qed.

Lemma as_list_Some {A : Type} (shape : json → option A) (v : json) (l : list A) :
  as_list shape v = Some l →
  ∃ items, v = JList items ∧ Forall2 (λ x y, shape x = Some y) items l.
Proof.
  destruct v as [| | | | |items|]; try done. simpl. intros H%mapM_Some.
  by exists items.
Qed.

(** The items that a loop goes through, for a field that is a list or is
    absent. *)
Lemma iterate_field {A : Type} (shape : json → option A)
    (items : list (string * json)) (key : string) (l : option (list A)) :
  field (as_list shape) items key = Some l →
  ∃ vs, iterate (default (JList []) (lookup_item key items)) = mret vs
        ∧ Forall2 (λ x y, shape x = Some y) vs (default [] l).
Proof.
  intros H%field_Some. destruct (lookup_item key items) as [w|].
  - destruct H as (xs & -> & (vs & -> & Hvs)%as_list_Some). by exists vs.
  - subst l. by exists [].
Qed.

Lemma process_elements_json_refines (o : Location) (dests : list Location)
    (vs : list json) (els : list Element) :
  Forall2 (λ v el, as_element v = Some el) vs els →
  ∀ (k : nat) (routes : gmap string RouteInfo),
    foldM (process_element_json repr o dests) (enumerate_from k vs)
      (json_route <$> routes)
    = json_routes (foldM (process_element o dests) (enumerate_from k els) routes).
Proof.
  induction 1 as [|v el vs els Hv _ IH]; intros k routes; [done|].
  simpl enumerate_from. rewrite !foldM_cons.
  rewrite (process_element_json_refines _ _ _ _ _ _ Hv).
  rewrite json_routes_bind, json_routes_bind_l.
  apply Printing_bind_ext. intros routes'. apply IH.
Qed.

Lemma as_row_Some (v : json) (row : Row) :
  as_row v = Some row →
  ∃ items, v = JDict items
    ∧ field (as_list as_element) items "elements" = Some (row_elements row).
Proof.
  destruct v as [| | | | | |items]; try done. simpl.
  destruct (field (as_list as_element) items "elements") as [els|] eqn:Hels; [|done].
  intros [= <-]. by exists items.
Qed.

Lemma process_row_json_refines (origins dests : list Location)
    (routes : gmap string RouteInfo) (i : nat) (v : json) (row : Row) :
  as_row v = Some row →
  process_row_json repr origins dests (json_route <$> routes) (i, v)
  = json_routes (process_row origins dests routes (i, row)).
Proof.
  intros (items & -> & (vs & Hiter & Hvs)%iterate_field)%as_row_Some.
  unfold process_row_json, process_row.
  rewrite json_routes_bind. apply Printing_bind_ext. intros o.
  change (dict_get (JDict items) "elements")
    with (mret (M:=Printing) (lookup_item "elements" items)).
  rewrite Printing_bind_eq. cbn [fst snd mret Printing_ret app].
  rewrite Hiter. rewrite Printing_bind_eq. cbn [fst snd mret Printing_ret app].
  unfold enumerate.
  rewrite (process_elements_json_refines o dests vs _ Hvs 0 routes).
  by destruct (json_routes _).
Qed.

Lemma process_rows_json_refines (origins dests : list Location)
    (vs : list json) (rows : list Row) :
  Forall2 (λ v row, as_row v = Some row) vs rows →
  ∀ (k : nat) (routes : gmap string RouteInfo),
    foldM (process_row_json repr origins dests) (enumerate_from k vs)
      (json_route <$> routes)
    = json_routes (foldM (process_row origins dests) (enumerate_from k rows) routes).
Proof.
  induction 1 as [|v row vs rows Hv _ IH]; intros k routes; [done|].
  simpl enumerate_from. rewrite !foldM_cons.
  rewrite (process_row_json_refines _ _ _ _ _ _ Hv).
  rewrite json_routes_bind, json_routes_bind_l.
  apply Printing_bind_ext. intros routes'. apply IH.
Qed.

Lemma as_data_Some (v : json) (data : MatrixData) :
  as_data v = Some data →
  ∃ items, v = JDict items
    ∧ lookup_item "status" items = JStr <$> data_status data
    ∧ lookup_item "error_message" items = JStr <$> data_error_message data
    ∧ field (as_list as_row) items "rows" = Some (data_rows data).
Proof.
  destruct v as [| | | | | |items]; try done. simpl.
  destruct (field as_str items "status") as [st|] eqn:Hst; [|done].
  destruct (field as_str items "error_message") as [msg|] eqn:Hmsg; [|done].
  destruct (field (as_list as_row) items "rows") as [rows|] eqn:Hrows; [|done].
  intros [= <-]. exists items. simpl. split_and!; [done| | |done]; by apply field_str.
Qed.

(** On a body of the documented shape the aggregation over any JSON value
    does what the aggregation over the records does: the same lines, the
    same exception or the same routes. *)
Lemma process_matrix_response_json_refines (v : json) (data : MatrixData)
    (origins dests : list Location) :
  as_data v = Some data →
  process_matrix_response_json repr v origins dests
  = json_routes (process_matrix_response data origins dests).
Proof.
  intros (items & -> & _ & _ & (vs & Hiter & Hvs)%iterate_field)%as_data_Some.
  unfold process_matrix_response_json, process_matrix_response.
  change (dict_get (JDict items) "rows")
    with (mret (M:=Printing) (lookup_item "rows" items)).
  rewrite Printing_bind_eq. cbn [fst snd mret Printing_ret app].
  rewrite Hiter. rewrite Printing_bind_eq. cbn [fst snd mret Printing_ret app].
  rewrite <- (fmap_empty json_route).
  unfold enumerate.
  rewrite (process_rows_json_refines origins dests vs _ Hvs 0 ∅).
  by destruct (json_routes _).
Qed.

(** X2: for locations with their ids and names and a body that is any JSON
    value.  On a body of the documented shape, the aggregation does what
    the aggregation over the records does, and it returns exactly when
    every row has an origin, every element a destination, and every
    element with status OK of a pair of different ids has its two measures
    with a distance that fits a float.  A body that is not a [dict] ends
    it with [AttributeError], and one whose [rows] are [null], a [bool] or
    a number with [TypeError], before any line is printed. *)
Theorem aggregation_returns_iff (v : json) (origins dests : list Location) :
  let r := process_matrix_response_json repr v origins dests in
  (∀ data, as_data v = Some data →
     r = json_routes (process_matrix_response data origins dests)
     ∧ ((∃ routes, r.1 = Return routes) ↔
        ∀ i row, rows_of data !! i = Some row →
          ∃ o, origins !! i = Some o
               ∧ ∀ j el, elements_of row !! j = Some el →
                   ∃ d, dests !! j = Some d
                        ∧ (loc_id o ≠ loc_id d → el_status el = Some "OK" →
                           ∃ distance_m duration_s,
                             (∃ distance duration,
                                el_distance el = Some distance
                                ∧ value distance = Some distance_m
                                ∧ el_duration el = Some duration
                                ∧ value duration = Some duration_s)
                             ∧ is_Some (PyFloat.int_truediv distance_m 1000))))
  ∧ ((∀ items, v ≠ JDict items) → r = (Raised AttributeError, []))
  ∧ (∀ items rows,
       v = JDict items → lookup_item "rows" items = Some rows →
       match rows with
       | JList _ | JStr _ | JDict _ => True
       | _ => r = (Raised TypeError, [])
       end).
Proof.
  intros r. split_and!.
  - intros data Hdata.
    pose proof (process_matrix_response_json_refines v data origins dests Hdata) as Href.
    fold r in Href. split; [done|].
    rewrite <- process_matrix_response_returns_iff. rewrite Href.
    unfold json_routes. simpl.
    destruct (process_matrix_response data origins dests).1 as [routes|e].
    + split; intros _; by eexists.
    + split; by intros [? [=]].
  - intros Hv. unfold r. destruct v; try done. by destruct (Hv items).
  - intros items rows -> Hrows. unfold r, process_matrix_response_json.
    simpl. rewrite Hrows. by destruct rows.
Qed.

End Refinement.

Lemma aggregation_returns_iff_witness :
  as_data Sample.json_response = Some Sample.response
  ∧ (∃ routes,
       (process_matrix_response_json Sample.repr Sample.json_response
          Sample.three Sample.three).1 = Return routes)
  ∧ process_matrix_response_json Sample.repr Sample.json_null_rows
      Sample.three Sample.three = (Raised TypeError, [])
  ∧ process_matrix_response_json Sample.repr Sample.json_text_distance
      [Sample.place "a"] [Sample.place "b"] = (Raised TypeError, []).
Proof.
  assert (as_data Sample.json_response = Some Sample.response) as Hdata
    by reflexivity.
  destruct (aggregation_returns_iff Sample.repr Sample.json_response
              Sample.three Sample.three) as (Hshape & _ & _).
  destruct (Hshape _ Hdata) as [Href _].
  destruct (aggregation_returns_iff Sample.repr Sample.json_null_rows
              Sample.three Sample.three) as (_ & _ & Hrows).
  split_and!; [exact Hdata| | |].
  - rewrite Href.
    exists (json_route <$> store ∅ (writes (positions Sample.response
                                              Sample.three Sample.three))).
    vm_compute. reflexivity.
  - exact (Hrows _ JNull eq_refl eq_refl).
  - vm_compute. reflexivity.
Defined.

(** ** [get_distance_matrix] over any JSON value *)

Section Request.

Variable repr : json → string.

Lemma subscript_out (v : json) (key : string) :
  (subscript v key).2 = []
  ∧ ∀ e, (subscript v key).1 = Raised e → e = TypeError ∨ e = KeyError key.
Proof.
  destruct v as [| | | | | |items]; simpl; try (split; [done|intros e [= <-]; by left]).
  destruct (lookup_item key items); simpl; split; try done.
  intros e [= <-]. by right.
Qed.

Lemma coordinates_json_out (loc : json) :
  (coordinates_json repr loc).2 = []
  ∧ ∀ e, (coordinates_json repr loc).1 = Raised e →
      e = TypeError ∨ e = KeyError "latitud" ∨ e = KeyError "longitud".
Proof.
  unfold coordinates_json. rewrite Printing_bind_eq.
  destruct (subscript_out loc "latitud") as [Hout He].
  destruct (subscript loc "latitud") as [[latitud|e] out]; simpl in *; subst out.
  2:{ split; [done|]. intros e' [= <-]. destruct (He e eq_refl); auto. }
  rewrite Printing_bind_eq.
  destruct (subscript_out loc "longitud") as [Hout' He'].
  destruct (subscript loc "longitud") as [[longitud|e] out]; simpl in *; subst out.
  - split; [done|]. by intros e.
  - split; [done|]. intros e' [= <-]. destruct (He' e eq_refl); auto.
Qed.

Lemma mapM_coordinates_json_out (locs : list json) :
  (mapM (coordinates_json repr) locs).2 = []
  ∧ ∀ e, (mapM (coordinates_json repr) locs).1 = Raised e →
      e = TypeError ∨ e = KeyError "latitud" ∨ e = KeyError "longitud".
Proof.
  induction locs as [|loc locs [IHout IHe]]; [split; [done|by intros e]|].
  simpl. rewrite Printing_bind_eq.
  destruct (coordinates_json_out loc) as [Hout He].
  destruct (coordinates_json repr loc) as [[c|e] out]; simpl in *; subst out.
  2:{ split; [done|]. intros e' [= <-]. by apply He. }
  rewrite Printing_bind_eq.
  destruct (mapM (coordinates_json repr) locs) as [[cs|e] out]; simpl in *; subst out.
  - split; [done|]. by intros e.
  - split; [done|]. intros e' [= <-]. by apply IHe.
Qed.

Lemma request_params_json_out (key : string) (origins dests : list json) :
  (request_params_json repr key origins dests).2 = []
  ∧ ∀ e, (request_params_json repr key origins dests).1 = Raised e →
      e = TypeError ∨ e = KeyError "latitud" ∨ e = KeyError "longitud".
Proof.
  unfold request_params_json. rewrite Printing_bind_eq.
  destruct (mapM_coordinates_json_out origins) as [Hout He].
  destruct (mapM (coordinates_json repr) origins) as [[os|e] out]; simpl in *; subst out.
  2:{ split; [done|]. intros e' [= <-]. by apply He. }
  rewrite Printing_bind_eq.
  destruct (mapM_coordinates_json_out dests) as [Hout' He'].
  destruct (mapM (coordinates_json repr) dests) as [[ds|e] out]; simpl in *; subst out.
  - split; [done|]. by intros e.
  - split; [done|]. intros e' [= <-]. by apply He'.
Qed.

Lemma say_silent {A : Type} (p : Printing A) (s : State) :
  p.2 = [] → say p s = (p.1, s).
Proof.
  intros Hout. unfold say. rewrite Hout, app_nil_r. by destruct s.
Qed.

(** X1: for locations and a body that are any JSON values.  When the
    coordinates of a location cannot be read, the call raises before it
    requests anything.  Otherwise it makes exactly one request, with the
    parameters built from its two batches, and touches neither the cache
    nor the counters nor the file; it returns the body exactly when the
    response is a success whose body is a [dict] with the status OK,
    without printing; it returns [None], after one line of output, exactly
    for an HTTP error and for a [dict] with another status or none; and it
    raises the exception of [requests.get], that of [response.json()], or
    [AttributeError] for a body that is JSON and not a [dict]. *)
Theorem get_distance_matrix_outcome (key : string)
    (service : nat → Params → JsonOutcome) (origins dests : list json)
    (s : State) :
  let r := get_distance_matrix_json repr key service origins dests s in
  match (request_params_json repr key origins dests).1 with
  | Raised e =>
      r = (Raised e, s)
      ∧ (e = TypeError ∨ e = KeyError "latitud" ∨ e = KeyError "longitud")
  | Return params =>
      let answer := service (length (http_log s)) params in
      (http_log r.2 = http_log s ++ [params] ∧ cache r.2 = cache s
       ∧ request_count r.2 = request_count s ∧ sleeps r.2 = sleeps s
       ∧ routes_cache_file r.2 = routes_cache_file s)
      ∧ (∀ data, r.1 = Return (Some data) ↔
           ∃ status_code items,
             answer = JsonResponse status_code (Some data)
             ∧ response_ok status_code = true
             ∧ data = JDict items
             ∧ lookup_item "status" items = Some (JStr "OK"))
      ∧ (∀ data, r.1 = Return (Some data) → stdout r.2 = stdout s)
      ∧ (r.1 = Return None ↔
           ∃ status_code body,
             answer = JsonResponse status_code body
             ∧ (response_ok status_code = false
                ∨ ∃ items, body = Some (JDict items)
                           ∧ lookup_item "status" items ≠ Some (JStr "OK")))
      ∧ (r.1 = Return None → ∃ line, stdout r.2 = stdout s ++ [line])
      ∧ (r.1 = Raised RequestException ↔ answer = JsonConnectionFailed)
      ∧ (r.1 = Raised JSONDecodeError ↔
           ∃ status_code, answer = JsonResponse status_code None
                          ∧ response_ok status_code = true)
      ∧ (r.1 = Raised AttributeError ↔
           ∃ status_code data,
             answer = JsonResponse status_code (Some data)
             ∧ response_ok status_code = true
             ∧ ∀ items, data ≠ JDict items)
      ∧ (∀ e, r.1 = Raised e →
           e = RequestException ∨ e = JSONDecodeError ∨ e = AttributeError)
  end.
Proof.
  intros r. subst r. unfold get_distance_matrix_json. rewrite Run_bind_eq.
  destruct (request_params_json_out key origins dests) as [Hout He].
  rewrite (say_silent _ s Hout).
  destruct (request_params_json repr key origins dests).1 as [params|e].
  2:{ split; [done|]. by apply He. }
  cbv zeta. rewrite Run_bind_eq. unfold requests_get_json.
  destruct (service (length (http_log s)) params) as [|status_code body]; simpl.
  { split_and!; try done; try naive_solver congruence. }
  destruct (response_ok status_code) eqn:Hok; simpl.
  2:{ split_and!; try done; try naive_solver congruence. }
  destruct body as [data|]; simpl.
  2:{ split_and!; try done; try naive_solver congruence. }
  destruct data as [| | | | | |items]; simpl.
  1-6: by (split_and!; try done; try naive_solver congruence).
  unfold mbind, Run_bind, mret, Run_ret, say; simpl.
  destruct (is_OK (lookup_item "status" items)) eqn:Hstatus; simpl.
  - apply is_OK_true in Hstatus. rewrite ?app_nil_r.
    split_and!; try done; try naive_solver congruence.
  - assert (lookup_item "status" items ≠ Some (JStr "OK")) as Hne.
    { intros H%is_OK_true. congruence. }
    rewrite ?app_nil_r.
    split_and!; try done; try naive_solver congruence.
Qed.

(** *** Locations and bodies of the documented shape *)

Lemma coordinates_json_location (v : json) (loc : Location) :
  as_location repr v = Some loc → coordinates_json repr v = mret (coordinates loc).
Proof.
  destruct v as [| | | | | |items]; try done. unfold as_location, coordinates_json.
  simpl.
  destruct (lookup_item "id" items) as [id|]; [|done].
  destruct (lookup_item "nombre" items) as [nombre|]; [|done].
  destruct (lookup_item "latitud" items) as [latitud|]; [|done].
  destruct (lookup_item "longitud" items) as [longitud|]; [|done]. simpl.
  destruct id; try done. destruct nombre; try done. by intros [= <-].
Qed.

Lemma mapM_coordinates_json_locations (vs : list json) (locs : list Location) :
  mapM (as_location repr) vs = Some locs →
  mapM (coordinates_json repr) vs = mret (coordinates <$> locs).
Proof.
  intros H%mapM_Some. induction H as [|v loc vs locs Hv _ IH]; [done|].
  simpl. rewrite (coordinates_json_location _ _ Hv), IH. done.
Qed.

Lemma request_params_json_locations (env : Env) (vs ws : list json)
    (origins dests : list Location) :
  mapM (as_location repr) vs = Some origins →
  mapM (as_location repr) ws = Some dests →
  request_params_json repr (GOOGLE_API_KEY env) vs ws
  = mret (request_params env origins dests).
Proof.
  intros Hvs Hws. unfold request_params_json.
  rewrite (mapM_coordinates_json_locations _ _ Hvs).
  by rewrite (mapM_coordinates_json_locations _ _ Hws).
Qed.

(** On locations and on a response of the documented shape,
    [get_distance_matrix] over any JSON value does what it does over the
    records: the same request, the same lines, the same exception or the
    same result. *)
Lemma get_distance_matrix_json_refines (env : Env)
    (json_service : nat → Params → JsonOutcome) (vs ws : list json)
    (origins dests : list Location) (s : State) :
  mapM (as_location repr) vs = Some origins →
  mapM (as_location repr) ws = Some dests →
  let params := request_params env origins dests in
  as_outcome (json_service (length (http_log s)) params)
  = Some (service env (length (http_log s)) params) →
  let r := get_distance_matrix_json repr (GOOGLE_API_KEY env) json_service vs ws s in
  let t := get_distance_matrix env origins dests s in
  r.2 = t.2
  ∧ match r.1, t.1 with
    | Return (Some v), Return (Some data) => as_data v = Some data
    | Return None, Return None => True
    | Raised e, Raised e' => e = e'
    | _, _ => False
    end.
Proof.
  intros Hvs Hws params Hanswer r t. subst r t.
  unfold get_distance_matrix_json, get_distance_matrix.
  rewrite (Run_bind_eq (say _)).
  rewrite (request_params_json_locations env _ _ _ _ Hvs Hws).
  rewrite say_silent by done. cbn [fst mret Printing_ret].
  rewrite !Run_bind_eq.
  unfold requests_get_json, requests_get. fold params.
  destruct (json_service (length (http_log s)) params) as [|status_code body];
    simpl in Hanswer.
  { injection Hanswer as <-. done. }
  destruct body as [v|]; simpl in Hanswer.
  2:{ injection Hanswer as <-. simpl. by destruct (response_ok status_code). }
  destruct (as_data v) as [data|] eqn:Hdata; [|done].
  injection Hanswer as <-. simpl.
  destruct (response_ok status_code); [|done]. simpl.
  destruct (as_data_Some v data Hdata) as (items & -> & Hst & Hmsg & _).
  unfold mbind, Run_bind, mret, Run_ret, say; simpl.
  rewrite Hst, Hmsg, is_OK_str.
  destruct (decide (data_status data = Some "OK")) as [Hok|Hok].
  - rewrite bool_decide_true by done. rewrite decide_False by (by intros ?). simpl.
    rewrite ?app_nil_r. by destruct s.
  - rewrite bool_decide_false by done. rewrite decide_True by done. simpl.
    rewrite ?app_nil_r. split; [|done].
    by destruct (data_status data), (data_error_message data).
Qed.

End Request.

Lemma get_distance_matrix_outcome_witness :
  let s := initial_state in
  get_distance_matrix_json Sample.repr "secret" Sample.answers_list
    [Sample.json_place "a"] [Sample.json_place "b"] s
  = (Raised AttributeError,
     {| stdout := []; http_log := [request_params Sample.env_three
                                     [Sample.place "a"] [Sample.place "b"]];
        sleeps := 0; cache := ∅; request_count := 0;
        routes_cache_file := None |})
  ∧ get_distance_matrix_json Sample.repr "secret" Sample.answers_list
      [Sample.json_place "a"; Sample.json_no_latitud] [Sample.json_place "b"] s
    = (Raised (KeyError "latitud"), s)
  ∧ (get_distance_matrix_json Sample.repr "secret" Sample.answers_quota
       [Sample.json_place "a"] [Sample.json_place "b"] s).1 = Return None.
Proof.
  intros s. split_and!.
  - vm_compute. reflexivity.
  - pose proof (get_distance_matrix_outcome Sample.repr "secret" Sample.answers_list
                  [Sample.json_place "a"; Sample.json_no_latitud]
                  [Sample.json_place "b"] s) as H.
    exact (proj1 H).
  - pose proof (get_distance_matrix_outcome Sample.repr "secret" Sample.answers_quota
                  [Sample.json_place "a"] [Sample.json_place "b"] s) as H.
    destruct H as (_ & _ & _ & Hnone & _). apply Hnone.
    eexists _, _. split; [reflexivity|]. right. eexists. split; [reflexivity|].
    discriminate.
Defined.
